(** * The Moringa Daily: chat directory and threaded comments

    A shallow embedding of the request handlers of [server/app.py] that
    deal with conversations, messages and comments, in two snapshots of the
    file: [app_20250507145350.py] (chat routes, threaded comment reader) and
    [app_20250427081731.py] (comment creation).

    A handler is a computation over the server state that either returns a
    response or raises a Python exception.  A commit is durable: an exception
    raised after [db.session.commit()] does not undo it, so the state is
    threaded through failures as well. *)

From stdpp Require Import gmap strings list.

Local Open Scope Z_scope.

(** ** Python values, exceptions *)

(** The JSON scalars a request body carries. *)
Inductive pyval :=
| PInt (z : Z)
| PStr (s : string)
| PNone.

Global Instance pyval_eq_dec : EqDecision pyval.
Proof. solve_decision. Defined.

(** The exceptions the modelled handlers can raise. *)
Inductive exn :=
| KeyError (key : string)
| NameError (name : string)
| AttributeError (attr : string)
| RecursionError.

Global Instance exn_eq_dec : EqDecision exn.
Proof. solve_decision. Defined.

(** [str(error)], as [handle_exception] renders it. *)
Definition str_exn (e : exn) : string :=
  match e with
  | KeyError k => "'" +:+ k +:+ "'"
  | NameError n => "name '" +:+ n +:+ "' is not defined"
  | AttributeError a => "'NoneType' object has no attribute '" +:+ a +:+ "'"
  | RecursionError => "maximum recursion depth exceeded"
  end.

Inductive result (A : Type) :=
| Ret (a : A)
| Raise (e : exn).
Global Arguments Ret {A} a.
Global Arguments Raise {A} e.

Global Instance result_ret : MRet result := λ A a, Ret a.
Global Instance result_bind : MBind result := λ A B k m,
  match m with
  | Ret a => k a
  | Raise e => Raise e
  end.

(** [d[k]] on a dict. *)
Definition getitem (d : gmap string pyval) (k : string) : result pyval :=
  match d !! k with
  | Some v => Ret v
  | None => Raise (KeyError k)
  end.

(** ** Rows of [models.py] *)

(** Modelled from the spec: [models.py] is not among the sources.  The
    columns are those the handlers read and write. *)
Record Conversation := mkConversation {
  conv_id : Z;
  user1_id : Z;
  user2_id : Z
}.

(** Modelled from the spec: row of [Message]; [timestamp] is stamped when
    the row is created. *)
Record Message := mkMessage {
  msg_id : Z;
  conversation_id : Z;
  sender_id : Z;
  recipient_id : Z;
  content : pyval;
  timestamp : Z
}.

(** Modelled from the spec: [Profile] and [User], as far as [handle_chat]
    and [build_comment_tree] look into them. *)
Record Profile := mkProfile {
  profile_picture : option string
}.

Record User := mkUser {
  user_id : Z;
  username : string;
  profile : option Profile
}.

(** Modelled from the spec: row of [Comment] in the snapshot of 7 May. *)
Record Comment := mkComment {
  comment_id : Z;
  comment_content_id : Z;
  comment_user_id : Z;
  body : string;
  created_at : Z;
  parent_comment_id : option Z
}.

Global Instance Conversation_eq_dec : EqDecision Conversation.
Proof. solve_decision. Defined.
Global Instance Message_eq_dec : EqDecision Message.
Proof. solve_decision. Defined.
Global Instance Profile_eq_dec : EqDecision Profile.
Proof. solve_decision. Defined.
Global Instance User_eq_dec : EqDecision User.
Proof. solve_decision. Defined.
Global Instance Comment_eq_dec : EqDecision Comment.
Proof. solve_decision. Defined.

(** The primary key the database gives a new row: one more than the largest
    key in the table. *)
Definition next_id (ids : list Z) : Z := 1 + foldr Z.max 0 ids.

(** ** Server state *)

(** The payload of the [new_chat] event.  [lastMessageTime] holds the
    datetime whose [isoformat()] is sent. *)
Record NewChat := mkNewChat {
  nc_id : Z;
  receiverName : string;
  lastMessage : pyval;
  lastMessageTime : Z;
  avatarUrl : option string
}.

(** The tables, every table in insertion order, the socket clients that
    are connected, and the events delivered so far as (client, payload). *)
Record World := mkWorld {
  conversations : list Conversation;
  messages : list Message;
  users : list User;
  comments : list Comment;
  clients : list Z;
  outbox : list (Z * NewChat)
}.

Definition empty_world : World := mkWorld [] [] [] [] [] [].

Definition set_conversations (cs : list Conversation) (w : World) : World :=
  mkWorld cs (messages w) (users w) (comments w) (clients w) (outbox w).

Definition set_messages (ms : list Message) (w : World) : World :=
  mkWorld (conversations w) ms (users w) (comments w) (clients w) (outbox w).

Definition set_outbox (o : list (Z * NewChat)) (w : World) : World :=
  mkWorld (conversations w) (messages w) (users w) (comments w) (clients w) o.

(** ** Handlers as state-and-exception computations *)

Definition M (A : Type) : Type := World → World * result A.

Global Instance M_ret : MRet M := λ A a w, (w, Ret a).
Global Instance M_bind : MBind M := λ A B k m w,
  match m w with
  | (w', Ret a) => k a w'
  | (w', Raise e) => (w', Raise e)
  end.

Definition raise {A} (e : exn) : M A := λ w, (w, Raise e).
Definition lift {A} (r : result A) : M A := λ w, (w, r).
Definition gets {A} (f : World → A) : M A := λ w, (w, Ret (f w)).
Definition reads {A} (f : World → result A) : M A := λ w, (w, f w).
Definition modify (f : World → World) : M unit := λ w, (f w, Ret tt).

Inductive http_method := GET | POST.

Global Instance http_method_eq_dec : EqDecision http_method.
Proof. solve_decision. Defined.

(** The dict [build_comment_tree] builds for a comment.  [node_created_at]
    holds the datetime whose [isoformat()] is sent. *)
#[warnings="-register-all"]
Inductive Node :=
| mkNode (node_id : Z) (node_user : string) (node_body : string)
         (node_created_at : Z) (node_replies : list Node).

(** What [jsonify] is given. *)
Inductive json_body :=
| JContents (l : list pyval)
| JIds (l : list Z)
| JMessage (s : string)
| JError (s : string)
| JTree (l : list Node).

Definition response : Type := json_body * Z.

(** ** The module namespace of [app_20250507145350.py] *)

(** Every name the module binds at its top level: its imports, its
    assignments and its functions. *)
Definition module_names : list string :=
  [ "Flask"; "jsonify"; "request"; "Blueprint"; "Migrate"; "CORS"; "Api";
    "JWTManager"; "create_access_token"; "jwt_required"; "get_jwt_identity";
    "get_jwt"; "generate_password_hash"; "check_password_hash";
    "db"; "User"; "Profile"; "Content"; "Category"; "Subscription";
    "ContentSubscription"; "Wishlist"; "Comment"; "Like"; "Notification";
    "Share"; "Conversation"; "Message"; "timedelta"; "video_upload_bp";
    "SocketIO";
    "app"; "migrate"; "api"; "jwt"; "socketio"; "jwt_blocklist";
    "resources_bp";
    "check_if_token_revoked"; "handle_exception"; "get_user_data";
    "get_all_users"; "register"; "login"; "logout"; "get_profile";
    "create_profile"; "update_profile"; "delete_profile"; "create_content";
    "get_all_content"; "get_content_by_id"; "update_content";
    "delete_content"; "get_categories"; "add_category";
    "subscribe_category"; "subscribe_content"; "get_subscribed_categories";
    "add_to_wishlist"; "get_wishlist"; "like_content"; "unlike_content";
    "get_threaded_comments"; "build_comment_tree"; "share_content";
    "deactivate_user"; "approve_content"; "get_all_chats"; "handle_chat";
    "get_shared_content"; "on_connect" ]%string.

(** Looking a global name up in the namespace [names] when a call is
    evaluated; no builtin is called [emit]. *)
Definition load_global (names : list string) (name : string) : M unit :=
  if bool_decide (name ∈ names) then mret tt else raise (NameError name).

(** ** Queries *)

(** [Conversation.query.filter_by(user1_id=u1, user2_id=u2).first()] *)
Definition conversation_first (u1 u2 : Z) (w : World) : option Conversation :=
  head (filter (λ c, user1_id c = u1 ∧ user2_id c = u2) (conversations w)).

(** [Message.query.filter_by(conversation_id=cid).all()] *)
Definition messages_of (cid : Z) (w : World) : list Message :=
  filter (λ m, conversation_id m = cid) (messages w).

(** [User.query.get(uid)] *)
Definition user_get (uid : Z) (w : World) : option User :=
  head (filter (λ u, user_id u = uid) (users w)).

(** [db.session.add(Conversation(user1_id=u1, user2_id=u2)); db.session.commit()] *)
Definition add_conversation (u1 u2 : Z) : M Conversation := λ w,
  let c := mkConversation (next_id (conv_id <$> conversations w)) u1 u2 in
  (set_conversations (conversations w ++ [c]) w, Ret c).

(** [db.session.add(Message(...)); db.session.commit()] *)
Definition add_message (cid sender recipient : Z) (text : pyval) (now : Z)
  : M Message := λ w,
  let m := mkMessage (next_id (msg_id <$> messages w)) cid sender recipient text now in
  (set_messages (messages w ++ [m]) w, Ret m).

(** [emit('new_chat', payload, broadcast=True)]: one delivery to every
    connected client. *)
Definition broadcast (payload : NewChat) : M unit :=
  modify (λ w, set_outbox (outbox w ++ ((λ sid, (sid, payload)) <$> clients w)) w).

(** ** Chat routes *)

(** [get_all_chats] *)
Definition get_all_chats (current_user : Z) : M response :=
  chats ← gets (λ w, filter (λ c, user1_id c = current_user ∨ user2_id c = current_user)
                       (conversations w));
  mret (JIds (conv_id <$> chats), 200).

(** The first part of [handle_chat]: "Check for or create the
    conversation".  [None] stands for the early [return jsonify([]), 200]
    of a GET that finds no conversation. *)
Definition get_or_create_conversation (method : http_method)
    (current_user recipient_id : Z) : M (option Conversation) :=
  conversation ← gets (conversation_first (Z.min current_user recipient_id)
                                          (Z.max current_user recipient_id));
  match conversation with
  | Some c => mret (Some c)
  | None =>
      match method with
      | POST =>
          c ← add_conversation (Z.min current_user recipient_id)
                               (Z.max current_user recipient_id);
          mret (Some c)
      | GET => mret None
      end
  end.

(** The body of [handle_chat], run in the namespace [names]; [data] is
    [request.get_json()] and [now] the clock when the message row is
    stamped. *)
Definition handle_chat_in (names : list string) (method : http_method)
    (current_user recipient_id : Z) (data : gmap string pyval) (now : Z)
  : M response :=
  conversation ← get_or_create_conversation method current_user recipient_id;
  match conversation with
  | None => mret (JContents [], 200)
  | Some conversation =>
      match method with
      | POST =>
          text ← lift (getitem data "content");
          message ← add_message (conv_id conversation) current_user recipient_id text now;
          sender ← gets (user_get current_user);
          receiver ← gets (user_get recipient_id);
          _ ← load_global names "emit";
          receiver ← match receiver with
                     | Some r => mret r
                     | None => raise (AttributeError "username")
                     end;
          _ ← broadcast (mkNewChat (conv_id conversation)
                                   (username receiver)
                                   (content message)
                                   (timestamp message)
                                   (match profile receiver with
                                    | Some p => profile_picture p
                                    | None => None
                                    end));
          mret (JMessage "sent", 201)
      | GET =>
          msgs ← gets (messages_of (conv_id conversation));
          mret (JContents (content <$> msgs), 200)
      end
  end.

(** [handle_chat] as the module has it. *)
Definition handle_chat : http_method → Z → Z → gmap string pyval → Z → M response :=
  handle_chat_in module_names.

(** [@app.errorhandler(Exception)]: what the client sees of a view. *)
Definition handle_exception (e : exn) : response := (JError (str_exn e), 500).

Definition dispatch (view : M response) (w : World) : World * response :=
  match view w with
  | (w', Ret r) => (w', r)
  | (w', Raise e) => (w', handle_exception e)
  end.

(** A chat request, and a server run over a sequence of them. *)
Inductive request :=
| GetAllChats (current_user : Z)
| HandleChat (method : http_method) (current_user recipient_id : Z)
             (data : gmap string pyval) (now : Z).

Definition view_of (r : request) : M response :=
  match r with
  | GetAllChats u => get_all_chats u
  | HandleChat m u r d t => handle_chat m u r d t
  end.

Definition step (w : World) (r : request) : World := (dispatch (view_of r) w).1.

Definition run (rs : list request) (w : World) : World := foldl step w rs.


(** ** Threaded comments *)

(** [Comment.query.filter_by(content_id=content_id, parent_comment_id=None).all()] *)
Definition top_level (content_id : Z) (w : World) : list Comment :=
  filter (λ c, comment_content_id c = content_id ∧ parent_comment_id c = None)
         (comments w).

(** [comment.replies]: the comments whose parent is [comment]. *)
Definition comment_replies (w : World) (comment : Comment) : list Comment :=
  filter (λ c, parent_comment_id c = Some (comment_id comment)) (comments w).

(** [comment.user.username] *)
Definition comment_username (w : World) (comment : Comment) : result string :=
  match user_get (comment_user_id comment) w with
  | Some u => Ret (username u)
  | None => Raise (AttributeError "username")
  end.

(** [build_comment_tree]; [depth] is the number of nested calls the
    interpreter still allows. *)
Fixpoint build_comment_tree (depth : nat) (w : World) (comment : Comment)
  : result Node :=
  match depth with
  | O => Raise RecursionError
  | S depth' =>
      user ← comment_username w comment;
      replies ← mapM (build_comment_tree depth' w) (comment_replies w comment);
      mret (mkNode (comment_id comment) user (body comment)
                   (created_at comment) replies)
  end.

(** [get_threaded_comments] *)
Definition get_threaded_comments (depth : nat) (content_id : Z) : M response :=
  top ← gets (top_level content_id);
  trees ← reads (λ w, mapM (build_comment_tree depth w) top);
  mret (JTree trees, 200).

(** ** Comment creation, snapshot of 27 April *)

Module App_20250427.

(** Modelled from the spec: row of [Comment] as [post_comment] fills it;
    the constructor is given no parent, so the column stays null. *)
Record Comment := mkComment {
  comment_id : Z;
  user_id : Z;
  content_id : pyval;
  text : pyval;
  parent_comment_id : option Z
}.

(** [post_comment]; the state is the comment table, the answer
    [comment.to_dict()] with its status. *)
Definition post_comment (current_user : Z) (data : gmap string pyval)
    (table : list Comment) : list Comment * result (Comment * Z) :=
  match getitem data "content_id" with
  | Raise e => (table, Raise e)
  | Ret cid =>
      match getitem data "text" with
      | Raise e => (table, Raise e)
      | Ret txt =>
          let comment :=
            mkComment (next_id (comment_id <$> table)) current_user cid txt None in
          (table ++ [comment], Ret (comment, 201))
      end
  end.

End App_20250427.

(** ** Descriptions used in the statements *)

(** The row [handle_chat] works on after a POST by [a] to [b]: the one the
    lookup finds, else the one it inserts. *)
Definition canonical_conversation (a b : Z) (w : World) : Conversation :=
  default (mkConversation (next_id (conv_id <$> conversations w))
                          (Z.min a b) (Z.max a b))
          (conversation_first (Z.min a b) (Z.max a b) w).

(** The state after that lookup-or-insert. *)
Definition with_conversation (a b : Z) (w : World) : World :=
  match conversation_first (Z.min a b) (Z.max a b) w with
  | Some _ => w
  | None => set_conversations (conversations w ++ [canonical_conversation a b w]) w
  end.

(** What a GET of the pair's messages answers with. *)
Definition list_messages (a b : Z) (w : World) : list pyval :=
  match conversation_first (Z.min a b) (Z.max a b) w with
  | Some c => content <$> messages_of (conv_id c) w
  | None => []
  end.

(** [c] is a conversation between [a] and [b], in either order. *)
Definition between (c : Conversation) (a b : Z) : Prop :=
  (user1_id c = a ∧ user2_id c = b) ∨ (user1_id c = b ∧ user2_id c = a).

Definition pair_of (c : Conversation) : Z * Z := (user1_id c, user2_id c).

(** Rows are in canonical order and no pair occurs twice. *)
Definition conversations_ok (w : World) : Prop :=
  Forall (λ c, user1_id c ≤ user2_id c) (conversations w) ∧
  NoDup (pair_of <$> conversations w).

(** Every message belongs to a conversation of the table. *)
Definition messages_ok (w : World) : Prop :=
  Forall (λ m, conversation_id m ∈ conv_id <$> conversations w) (messages w).

(** [n] is the tree of [c]: its own fields, its author's name, and the
    trees of its replies, in the order of the replies. *)
#[warnings="-register-all"]
Inductive tree_of (w : World) : Comment → Node → Prop :=
| tree_of_node (c : Comment) (u : User) (kids : list Node) :
    user_get (comment_user_id c) w = Some u →
    Forall2 (tree_of w) (comment_replies w c) kids →
    tree_of w c (mkNode (comment_id c) (username u) (body c) (created_at c) kids).

(** A reply is created after the comment it answers, so it has the larger
    key: the parent links have no cycle. *)
Definition replies_later (w : World) : Prop :=
  Forall (λ c, ∀ p, parent_comment_id c = Some p → p < comment_id c) (comments w).

(** Every comment has its author among the users. *)
Definition authors_exist (w : World) : Prop :=
  Forall (λ c, is_Some (user_get (comment_user_id c) w)) (comments w).

(** A nesting depth that is enough for every thread of the table. *)
Definition depth_needed (w : World) : nat :=
  S (Z.to_nat (foldr Z.max 0 (comment_id <$> comments w)
               - foldr Z.min 0 (comment_id <$> comments w))).

(** A message post between [A] and [B], from either side. *)
Record post := mkPost {
  from_first : bool;
  post_data : gmap string pyval;
  post_now : Z
}.

Definition post_request (A B : Z) (p : post) : request :=
  if from_first p
  then HandleChat POST A B (post_data p) (post_now p)
  else HandleChat POST B A (post_data p) (post_now p).

(** The bodies a sequence of posts appends: a post without ['content']
    appends none. *)
Definition posted (ps : list post) : list pyval :=
  omap (λ p, post_data p !! "content") ps.

(** ** Sample data *)

Definition hello : gmap string pyval := {[ "content" := PStr "hello" ]}.
Definition again : gmap string pyval := {[ "content" := PStr "again" ]}.

Definition sample_requests : list request :=
  [ HandleChat POST 2 1 hello 10;
    HandleChat GET 1 3 ∅ 11;
    HandleChat POST 1 2 again 12;
    HandleChat POST 3 1 ∅ 13;
    GetAllChats 1;
    HandleChat POST 4 4 hello 14 ].

Definition sample_world : World :=
  mkWorld [mkConversation 1 1 2; mkConversation 2 1 3]
          [mkMessage 1 1 2 1 (PStr "hello") 10]
          [mkUser 1 "ann" None; mkUser 2 "bob" (Some (mkProfile (Some "bob.png")))]
          []
          [100; 101; 102]
          [].

Definition sample_posts : list post :=
  [ mkPost true again 20; mkPost false ∅ 21; mkPost false hello 22 ].

(** Content 1 with a thread of depth three, and a comment on content 2. *)
Definition sample_thread : World :=
  mkWorld [] []
          [mkUser 1 "ann" None; mkUser 2 "bob" None]
          [mkComment 10 1 1 "first" 100 None;
           mkComment 11 1 2 "second" 101 (Some 10);
           mkComment 12 2 2 "elsewhere" 102 None;
           mkComment 13 1 1 "third" 103 (Some 11)]
          [] [].

(** A root, a reply to it, a reply to the reply, and nothing else. *)
Definition sample_chain : World :=
  mkWorld [] []
          [mkUser 1 "ann" None; mkUser 2 "bob" None]
          [mkComment 10 1 1 "first" 100 None;
           mkComment 11 1 2 "second" 101 (Some 10);
           mkComment 12 1 1 "third" 102 (Some 11)]
          [] [].

(** A comment on content 2, and a request to answer it under content 1. *)
Definition sample_comments : list App_20250427.Comment :=
  [ App_20250427.mkComment 7 1 (PInt 2) (PStr "first") None ].

Definition cross_reply : gmap string pyval :=
  <["parent_comment_id" := PInt 7]>
    (<["content_id" := PInt 1]> {[ "text" := PStr "re" ]}).

(** ** Likes *)

(** Modelled from the spec: row of [Like]; [like_content_id] holds what
    the handler stored, a URL integer or a JSON value. *)
Record Like := mkLike {
  like_id : Z;
  like_user_id : Z;
  like_content_id : pyval
}.

Global Instance Like_eq_dec : EqDecision Like.
Proof. solve_decision. Defined.

(** The methods of the route of [toggle_like]. *)
Inductive like_method := LIKE_POST | LIKE_DELETE.

Inductive like_body :=
| LikeMessage (message : string)
| LikeCount (message : string) (like_count : nat)
| LikeDict (row : Like)
| LikeError (error : string).

(** [Like.query.filter_by(user_id=u, content_id=c).first()] *)
Definition like_first (u : Z) (c : pyval) (t : list Like) : option Like :=
  head (filter (λ l, like_user_id l = u ∧ like_content_id l = c) t).

(** [Like.query.filter_by(content_id=c).count()] *)
Definition like_count_of (c : pyval) (t : list Like) : nat :=
  length (filter (λ l, like_content_id l = c) t).

(** [db.session.delete(like); db.session.commit()]: the row goes by its
    primary key. *)
Definition delete_like (like : Like) (t : list Like) : list Like :=
  filter (λ l, like_id l ≠ like_id like) t.

(** [toggle_like], snapshot of 27 April; the state is the like table. *)
Definition toggle_like (method : like_method) (current_user content_id : Z)
    (t : list Like) : list Like * (like_body * Z) :=
  let like := like_first current_user (PInt content_id) t in
  match method with
  | LIKE_POST =>
      match like with
      | Some _ => (t, (LikeMessage "Already liked", 400))
      | None =>
          let t' := t ++ [mkLike (next_id (like_id <$> t)) current_user
                                 (PInt content_id)] in
          (t', (LikeCount "Liked successfully"
                          (like_count_of (PInt content_id) t'), 201))
      end
  | LIKE_DELETE =>
      match like with
      | None => (t, (LikeMessage "Like not found", 404))
      | Some l =>
          let t' := delete_like l t in
          (t', (LikeCount "Unliked successfully"
                          (like_count_of (PInt content_id) t'), 200))
      end
  end.

(** [like_content], snapshot of 7 May. *)
Definition like_content (current_user : Z) (data : gmap string pyval)
    (t : list Like) : list Like * result (like_body * Z) :=
  match getitem data "content_id" with
  | Raise e => (t, Raise e)
  | Ret c =>
      let like := mkLike (next_id (like_id <$> t)) current_user c in
      (t ++ [like], Ret (LikeDict like, 201))
  end.

(** [unlike_content], snapshot of 7 May. *)
Definition unlike_content (current_user like_id' : Z) (t : list Like)
  : list Like * (like_body * Z) :=
  match head (filter (λ l, like_id l = like_id' ∧ like_user_id l = current_user) t) with
  | None => (t, (LikeError "Like not found", 404))
  | Some like => (delete_like like t, (LikeMessage "Content unliked", 200))
  end.

(** A run of [toggle_like] requests. *)
Definition toggle_run (rs : list (like_method * Z * Z)) (t : list Like) : list Like :=
  foldl (λ t r, (toggle_like r.1.1 r.1.2 r.2 t).1) t rs.

(** No user likes a content twice. *)
Definition likes_ok (t : list Like) : Prop :=
  NoDup ((λ l, (like_user_id l, like_content_id l)) <$> t).

Definition sample_likes : list Like :=
  [ mkLike 1 1 (PInt 5); mkLike 2 2 (PInt 5); mkLike 3 1 (PInt 6) ].

(** ** More descriptions of the chat tables *)

(** The message lies in the conversation of its sender and recipient. *)
Definition message_placed (w : World) (m : Message) : Prop :=
  ∃ c, c ∈ conversations w ∧
       conv_id c = conversation_id m ∧
       user1_id c = Z.min (sender_id m) (recipient_id m) ∧
       user2_id c = Z.max (sender_id m) (recipient_id m).

(** Primary keys are distinct in both chat tables. *)
Definition chat_keys_ok (w : World) : Prop :=
  NoDup (conv_id <$> conversations w) ∧ NoDup (msg_id <$> messages w).

(** The ids [get_all_chats] answers with. *)
Definition chats_of (u : Z) (w : World) : list Z :=
  conv_id <$> filter (λ c, user1_id c = u ∨ user2_id c = u) (conversations w).



(** [x] is [c] itself or lies below it in the thread of [c]. *)
Inductive descends (w : World) : Comment → Comment → Prop :=
| descends_here (c : Comment) : descends w c c
| descends_reply (c r x : Comment) :
    r ∈ comment_replies w c → descends w r x → descends w c x.

(** A path of replies read upwards: a comment, the comment it answers,
    and so on up to a top-level comment. *)
Inductive thread_path (w : World) : list Comment → Prop :=
| thread_path_root (c : Comment) :
    c ∈ comments w → parent_comment_id c = None → thread_path w [c]
| thread_path_reply (r x : Comment) (p : list Comment) :
    thread_path w (x :: p) → r ∈ comment_replies w x →
    thread_path w (r :: x :: p).

(** Two comments answer each other beside a regular thread on content 1:
    keys are distinct, the parent links have a cycle. *)
Definition sample_loop : World :=
  mkWorld [] []
          [mkUser 1 "ann" None]
          [mkComment 10 1 1 "first" 100 None;
           mkComment 11 1 1 "ping" 101 (Some 12);
           mkComment 12 1 1 "pong" 102 (Some 11);
           mkComment 13 1 1 "second" 103 (Some 10)]
          [] [].

(** A thread whose second level was written by a user that is gone. *)
Definition sample_orphan : World :=
  mkWorld [] []
          [mkUser 1 "ann" None]
          [mkComment 10 1 1 "first" 100 None;
           mkComment 11 1 9 "second" 101 (Some 10)]
          [] [].



(** ** Profiles *)

(** Modelled from the spec: row of [Profile] with the columns the profile
    routes read and write. *)
Record ProfileRow := mkProfileRow {
  pr_id : Z;
  pr_user_id : Z;
  pr_bio : pyval;
  pr_picture : pyval;
  pr_website : pyval
}.

Global Instance ProfileRow_eq_dec : EqDecision ProfileRow.
Proof. solve_decision. Defined.

Inductive profile_body :=
| ProfileDict (row : ProfileRow)
| ProfileMessage (message : string).

(** [d.get(k, dflt)]; [d.get(k)] is [dict_get d k PNone]. *)
Definition dict_get (d : gmap string pyval) (k : string) (dflt : pyval) : pyval :=
  default dflt (d !! k).

(** [Profile.query.filter_by(user_id=u).first()] *)
Definition profile_first (u : Z) (t : list ProfileRow) : option ProfileRow :=
  head (filter (λ r, pr_user_id r = u) t).

(** [get_profile] *)
Definition get_profile (current_user : Z) (t : list ProfileRow)
  : list ProfileRow * (profile_body * Z) :=
  match profile_first current_user t with
  | Some p => (t, (ProfileDict p, 200))
  | None => (t, (ProfileMessage "Profile not found", 404))
  end.

(** [create_profile] *)
Definition create_profile (current_user : Z) (data : gmap string pyval)
    (t : list ProfileRow) : list ProfileRow * (profile_body * Z) :=
  match profile_first current_user t with
  | Some _ => (t, (ProfileMessage "Profile already exists", 400))
  | None =>
      let p := mkProfileRow (next_id (pr_id <$> t)) current_user
                            (dict_get data "bio" PNone)
                            (dict_get data "profile_picture" PNone)
                            (dict_get data "website" PNone) in
      (t ++ [p], (ProfileDict p, 201))
  end.

(** [update_profile]: the row found is changed where it stands. *)
Definition update_profile (current_user : Z) (data : gmap string pyval)
    (t : list ProfileRow) : list ProfileRow * (profile_body * Z) :=
  match profile_first current_user t with
  | None => (t, (ProfileMessage "Profile not found", 404))
  | Some p =>
      let p' := mkProfileRow (pr_id p) (pr_user_id p)
                             (dict_get data "bio" (pr_bio p))
                             (dict_get data "profile_picture" (pr_picture p))
                             (dict_get data "website" (pr_website p)) in
      ((λ r, if decide (pr_id r = pr_id p) then p' else r) <$> t,
       (ProfileDict p', 200))
  end.

(** [delete_profile] *)
Definition delete_profile (current_user : Z) (t : list ProfileRow)
  : list ProfileRow * (profile_body * Z) :=
  match profile_first current_user t with
  | None => (t, (ProfileMessage "Profile not found", 404))
  | Some p =>
      (filter (λ r, pr_id r ≠ pr_id p) t, (ProfileMessage "Profile deleted", 200))
  end.

Inductive profile_request :=
| GetProfile (current_user : Z)
| CreateProfile (current_user : Z) (data : gmap string pyval)
| UpdateProfile (current_user : Z) (data : gmap string pyval)
| DeleteProfile (current_user : Z).

Definition profile_step (t : list ProfileRow) (r : profile_request) : list ProfileRow :=
  match r with
  | GetProfile u => (get_profile u t).1
  | CreateProfile u d => (create_profile u d t).1
  | UpdateProfile u d => (update_profile u d t).1
  | DeleteProfile u => (delete_profile u t).1
  end.

Definition profile_run (rs : list profile_request) (t : list ProfileRow)
  : list ProfileRow :=
  foldl profile_step t rs.

(** One profile per user at most, and distinct keys. *)
Definition profiles_ok (t : list ProfileRow) : Prop :=
  NoDup (pr_user_id <$> t) ∧ NoDup (pr_id <$> t).

Definition sample_profiles : list ProfileRow :=
  [ mkProfileRow 1 1 (PStr "hi") PNone (PStr "a.example");
    mkProfileRow 2 3 PNone (PStr "c.png") PNone ].

Definition new_bio : gmap string pyval := {[ "bio" := PStr "new" ]}.

(** ** Categories and subscriptions *)

(** Modelled from the spec: rows of [Category] and [Subscription]. *)
Record Category := mkCategory {
  cat_id : Z;
  cat_name : pyval
}.

Record Subscription := mkSubscription {
  sub_id : Z;
  sub_user_id : Z;
  sub_category_id : Z
}.

Global Instance Category_eq_dec : EqDecision Category.
Proof. solve_decision. Defined.
Global Instance Subscription_eq_dec : EqDecision Subscription.
Proof. solve_decision. Defined.

Inductive category_body :=
| CategoryDict (row : Category)
| CategoryMessage (message : string)
| CategoryError (error : string).

(** [add_category] *)
Definition add_category (data : gmap string pyval) (t : list Category)
  : list Category * (category_body * Z) :=
  match data !! "name" with
  | None => (t, (CategoryError "Category name is required", 400))
  | Some name =>
      match head (filter (λ c, cat_name c = name) t) with
      | Some _ => (t, (CategoryMessage "Category already exists", 400))
      | None =>
          let category := mkCategory (next_id (cat_id <$> t)) name in
          (t ++ [category], (CategoryDict category, 201))
      end
  end.

Definition category_run (ds : list (gmap string pyval)) (t : list Category)
  : list Category :=
  foldl (λ t d, (add_category d t).1) t ds.

(** [subscribe_category] *)
Definition subscribe_category (current_user category_id : Z)
    (subs : list Subscription) : list Subscription * (Subscription * Z) :=
  let subscription :=
    mkSubscription (next_id (sub_id <$> subs)) current_user category_id in
  (subs ++ [subscription], (subscription, 201)).

(** [Category.query.get(cid)] *)
Definition category_get (cid : Z) (cats : list Category) : option Category :=
  head (filter (λ c, cat_id c = cid) cats).

(** [c.to_dict()] on what [Category.query.get] gave. *)
Definition category_to_dict (c : option Category) : result Category :=
  match c with
  | Some c => Ret c
  | None => Raise (AttributeError "to_dict")
  end.

(** [get_subscribed_categories]; a read of both tables. *)
Definition get_subscribed_categories (current_user : Z) (cats : list Category)
    (subs : list Subscription) : result (list Category * Z) :=
  let subscriptions := filter (λ s, sub_user_id s = current_user) subs in
  let categories := (λ s, category_get (sub_category_id s) cats) <$> subscriptions in
  dicts ← mapM category_to_dict categories;
  mret (dicts, 200).

Definition sample_categories : list Category :=
  [ mkCategory 1 (PStr "tech"); mkCategory 2 (PStr "food") ].

Definition sample_subscriptions : list Subscription :=
  [ mkSubscription 1 7 2; mkSubscription 2 8 1; mkSubscription 3 7 1;
    mkSubscription 4 7 2 ].

(** ** Administration *)

(** Modelled from the spec: the columns of [User] the admin routes read
    and write. *)
Record Account := mkAccount {
  acc_id : Z;
  acc_role : pyval;
  acc_active : bool
}.

Global Instance Account_eq_dec : EqDecision Account.
Proof. solve_decision. Defined.

Inductive admin_body :=
| AdminUsers (rows : list Account)
| AdminMessage (message : string)
| AdminError (error : string).

(** [User.query.get(uid)] *)
Definition account_get (uid : Z) (t : list Account) : option Account :=
  head (filter (λ a, acc_id a = uid) t).

(** [not admin_user or admin_user.role != 'admin'] *)
Definition not_admin (a : option Account) : bool :=
  match a with
  | None => true
  | Some a => bool_decide (acc_role a ≠ PStr "admin")
  end.

(** [get_all_users] *)
Definition get_all_users (current_user_id : Z) (t : list Account)
  : list Account * (admin_body * Z) :=
  if not_admin (account_get current_user_id t)
  then (t, (AdminError "Unauthorized access", 403))
  else (t, (AdminUsers t, 200)).

(** [deactivate_user]: the row found is changed where it stands. *)
Definition deactivate_user (current_user_id user_id : Z) (t : list Account)
  : list Account * (admin_body * Z) :=
  if not_admin (account_get current_user_id t)
  then (t, (AdminError "Unauthorized access", 403))
  else
    match account_get user_id t with
    | None => (t, (AdminError "User not found", 404))
    | Some user =>
        ((λ a, if decide (acc_id a = acc_id user)
               then mkAccount (acc_id user) (acc_role user) false
               else a) <$> t,
         (AdminMessage "User deactivated successfully", 200))
    end.

Definition sample_accounts : list Account :=
  [ mkAccount 1 (PStr "admin") true; mkAccount 2 (PStr "user") true;
    mkAccount 3 PNone true ].

(** ** Revoked tokens *)

Global Instance pyval_countable : Countable pyval.
Proof.
  refine (inj_countable'
            (λ v, match v with
                  | PInt z => inl z
                  | PStr s => inr (inl s)
                  | PNone => inr (inr tt)
                  end)
            (λ x, match x with
                  | inl z => PInt z
                  | inr (inl s) => PStr s
                  | inr (inr _) => PNone
                  end) _).
  by intros [].
Defined.

(** [check_if_token_revoked]; the state is [jwt_blocklist]. *)
Definition check_if_token_revoked (jwt_header jwt_payload : gmap string pyval)
    (jwt_blocklist : gset pyval) : bool :=
  let jti := dict_get jwt_payload "jti" PNone in
  bool_decide (jti ∈ jwt_blocklist).

(** [logout]; [jwt] is [get_jwt()]. *)
Definition logout (jwt : gmap string pyval) (jwt_blocklist : gset pyval)
  : gset pyval * (string * Z) :=
  let jti := dict_get jwt "jti" PNone in
  ({[ jti ]} ∪ jwt_blocklist, ("Successfully logged out", 200)).

Definition logout_run (jwts : list (gmap string pyval)) (jwt_blocklist : gset pyval)
  : gset pyval :=
  foldl (λ b jwt, (logout jwt b).1) jwt_blocklist jwts.

(** ** Runs of [post_comment] *)

Definition post_comment_run (rs : list (Z * gmap string pyval))
    (table : list App_20250427.Comment) : list App_20250427.Comment :=
  foldl (λ t r, (App_20250427.post_comment r.1 r.2 t).1) table rs.

(** A run of admin requests: [None] as target is [get_all_users], a
    target is [deactivate_user]. *)
Definition admin_run (rs : list (Z * option Z)) (t : list Account) : list Account :=
  foldl (λ t r, match r.2 with
                | None => (get_all_users r.1 t).1
                | Some uid => (deactivate_user r.1 uid t).1
                end) t rs.

(** Same user, same role, and not active again once inactive. *)
Definition account_after (a a' : Account) : Prop :=
  acc_id a' = acc_id a ∧ acc_role a' = acc_role a ∧
  (acc_active a' = true → acc_active a = true).

(** ** Registration and login *)

(** Modelled from the spec: the columns of [User] that [register] writes
    and [login] reads. *)
Record Credential := mkCredential {
  cred_id : Z;
  cred_username : pyval;
  cred_email : pyval;
  cred_password : pyval;
  cred_role : pyval
}.

Global Instance Credential_eq_dec : EqDecision Credential.
Proof. solve_decision. Defined.

(** [AuthRaised e] is the body [{'error': str(e)}]; [AuthToken] stands for
    the token [create_access_token] makes of an identity and a role
    claim. *)
Inductive auth_body :=
| AuthUser (row : Credential)
| AuthError (error : string)
| AuthRaised (e : exn)
| AuthToken (identity : Z) (role : pyval).

(** The truth value Python gives a JSON scalar. *)
Definition truthy (v : pyval) : bool :=
  match v with
  | PInt z => bool_decide (z ≠ 0)
  | PStr s => bool_decide (s ≠ "")
  | PNone => false
  end.

(** ['k' not in data or not data['k']] *)
Definition absent_or_empty (data : gmap string pyval) (k : string) : bool :=
  match data !! k with
  | None => true
  | Some v => negb (truthy v)
  end.

(** [User.query.filter_by(email=e).first()] *)
Definition credential_first (e : pyval) (t : list Credential) : option Credential :=
  head (filter (λ u, cred_email u = e) t).

(** [register], snapshot of 7 May.  [hashed] is what
    [generate_password_hash] gave for the password in this request and
    [role] the role [assign_role] picked; past the checks the three keys
    are present, so [data['k']] is [dict_get data k PNone]. *)
Definition register (is_json : bool) (data : gmap string pyval)
    (hashed : result pyval) (role : pyval) (t : list Credential)
  : list Credential * (auth_body * Z) :=
  if negb is_json then (t, (AuthError "Content-Type must be application/json", 400))
  else if absent_or_empty data "username" then (t, (AuthError "Username is required", 400))
  else if absent_or_empty data "email" then (t, (AuthError "Email is required", 400))
  else if absent_or_empty data "password" then (t, (AuthError "Password is required", 400))
  else
    match credential_first (dict_get data "email" PNone) t with
    | Some _ => (t, (AuthError "Email already registered", 400))
    | None =>
        match hashed with
        | Raise e => (t, (AuthRaised e, 400))
        | Ret h =>
            let user := mkCredential (next_id (cred_id <$> t))
                                     (dict_get data "username" PNone)
                                     (dict_get data "email" PNone) h role in
            (t ++ [user], (AuthUser user, 201))
        end
    end.

(** [login], snapshot of 7 May; a read.  [password_ok] is what
    [check_password_hash] gives for the stored hash and the password of
    this request. *)
Definition login (is_json : bool) (data : gmap string pyval)
    (password_ok : result bool) (t : list Credential) : result (auth_body * Z) :=
  if negb is_json then Ret (AuthError "Content-Type must be application/json", 400)
  else
    match credential_first (dict_get data "email" PNone) t with
    | None => Ret (AuthError "Invalid credentials", 401)
    | Some user =>
        ok ← password_ok;
        if ok : bool
        then Ret (AuthToken (cred_id user) (cred_role user), 200)
        else Ret (AuthError "Invalid credentials", 401)
    end.

Record registration := mkRegistration {
  reg_is_json : bool;
  reg_data : gmap string pyval;
  reg_hashed : result pyval;
  reg_role : pyval
}.

Definition register_run (rs : list registration) (t : list Credential)
  : list Credential :=
  foldl (λ t r, (register (reg_is_json r) (reg_data r) (reg_hashed r) (reg_role r) t).1)
        t rs.

Definition sample_credentials : list Credential :=
  [ mkCredential 1 (PStr "ann") (PStr "ann@example.org") (PStr "h1") (PStr "admin") ].

Definition bob_form : gmap string pyval :=
  <["username" := PStr "bob"]>
    (<["email" := PStr "bob@example.org"]> {[ "password" := PStr "pw" ]}).

(** ** Basic facts *)

Lemma head_filter_None {A} (P : A → Prop) `{∀ x, Decision (P x)} (l : list A) :
  head (filter P l) = None ↔ Forall (λ x, ¬ P x) l.
Proof.
  induction l as [|x l IH]; simpl.
  - split; [constructor | done].
  - rewrite filter_cons. destruct (decide (P x)) as [HP|HP]; simpl.
    + split; [done | intros HF; inversion HF; tauto].
    + rewrite IH. split; [by constructor | by inversion 1].
Qed.

Lemma head_filter_app_Some {A} (P : A → Prop) `{∀ x, Decision (P x)}
    (l k : list A) (x : A) :
  head (filter P l) = Some x → head (filter P (l ++ k)) = Some x.
Proof.
  rewrite filter_app. destruct (filter P l); simpl; [done | auto].
Qed.

Lemma head_filter_app_None {A} (P : A → Prop) `{∀ x, Decision (P x)}
    (l k : list A) :
  head (filter P l) = None → head (filter P (l ++ k)) = head (filter P k).
Proof.
  rewrite filter_app. destruct (filter P l); simpl; [done | discriminate].
Qed.

Lemma foldr_max_ge (ids : list Z) (x : Z) : x ∈ ids → x ≤ foldr Z.max 0 ids.
Proof.
  induction 1 as [x l | x y l _ IH]; simpl; lia.
Qed.

Lemma next_id_fresh (ids : list Z) : next_id ids ∉ ids.
Proof.
  intros Hin. apply foldr_max_ge in Hin. unfold next_id in Hin. lia.
Qed.

(** The lookup-or-insert, case by case. *)
Lemma get_or_create_POST (a b : Z) (w : World) :
  get_or_create_conversation POST a b w
  = (with_conversation a b w, Ret (Some (canonical_conversation a b w))).
Proof.
  unfold get_or_create_conversation, with_conversation, canonical_conversation,
    mbind, M_bind, gets.
  destruct (conversation_first _ _ w); reflexivity.
Qed.

Lemma get_or_create_GET (a b : Z) (w : World) :
  get_or_create_conversation GET a b w
  = (w, Ret (conversation_first (Z.min a b) (Z.max a b) w)).
Proof.
  unfold get_or_create_conversation, mbind, M_bind, gets.
  destruct (conversation_first _ _ w); reflexivity.
Qed.

Lemma conversation_first_with (a b : Z) (w : World) :
  conversation_first (Z.min a b) (Z.max a b) (with_conversation a b w)
  = Some (canonical_conversation a b w).
Proof.
  unfold with_conversation, canonical_conversation.
  destruct (conversation_first _ _ w) as [c|] eqn:E; simpl; [done|].
  unfold conversation_first in *. simpl.
  rewrite head_filter_app_None by done.
  rewrite filter_cons, decide_True by done. reflexivity.
Qed.

Lemma canonical_conversation_pair (a b : Z) (w : World) :
  user1_id (canonical_conversation a b w) = Z.min a b ∧
  user2_id (canonical_conversation a b w) = Z.max a b.
Proof.
  unfold canonical_conversation.
  destruct (conversation_first _ _ w) as [c|] eqn:E; simpl; [|done].
  unfold conversation_first in E.
  apply head_Some_elem_of, list_elem_of_filter in E. tauto.
Qed.

(** The whole handler, case by case. *)
Lemma handle_chat_GET (a b : Z) (data : gmap string pyval) (now : Z) (w : World) :
  handle_chat GET a b data now w = (w, Ret (JContents (list_messages a b w), 200)).
Proof.
  unfold handle_chat, handle_chat_in, mbind, M_bind. rewrite get_or_create_GET.
  unfold list_messages. destruct (conversation_first _ _ w); reflexivity.
Qed.

Lemma handle_chat_POST_no_content (a b : Z) (data : gmap string pyval) (now : Z)
    (w : World) :
  data !! "content" = None →
  handle_chat POST a b data now w
  = (with_conversation a b w, Raise (KeyError "content")).
Proof.
  intros Hd. unfold handle_chat, handle_chat_in, mbind, M_bind. rewrite get_or_create_POST.
  unfold lift, getitem. rewrite Hd. reflexivity.
Qed.

Lemma handle_chat_POST_content (a b : Z) (data : gmap string pyval) (now : Z)
    (w : World) (v : pyval) :
  data !! "content" = Some v →
  handle_chat POST a b data now w
  = (set_messages
       (messages (with_conversation a b w) ++
          [mkMessage (next_id (msg_id <$> messages (with_conversation a b w)))
                     (conv_id (canonical_conversation a b w)) a b v now])
       (with_conversation a b w),
     Raise (NameError "emit")).
Proof.
  intros Hd. unfold handle_chat, handle_chat_in, mbind, M_bind. rewrite get_or_create_POST.
  unfold lift, getitem. rewrite Hd. reflexivity.
Qed.

Lemma with_conversation_comm (a b : Z) (w : World) :
  with_conversation a b w = with_conversation b a w.
Proof.
  unfold with_conversation, canonical_conversation.
  by rewrite (Z.min_comm a b), (Z.max_comm a b).
Qed.

Lemma canonical_conversation_comm (a b : Z) (w : World) :
  canonical_conversation a b w = canonical_conversation b a w.
Proof.
  unfold canonical_conversation. by rewrite (Z.min_comm a b), (Z.max_comm a b).
Qed.

Lemma get_or_create_found (method : http_method) (a b : Z) (w : World)
    (c : Conversation) :
  conversation_first (Z.min a b) (Z.max a b) w = Some c →
  get_or_create_conversation method a b w = (w, Ret (Some c)).
Proof.
  intros E. unfold get_or_create_conversation, mbind, M_bind, gets.
  rewrite E. reflexivity.
Qed.

(** ** Canonical pairs *)

(** C1. Canonicalization symmetry: on any state, resolving the conversation
    as (A,B) and as (B,A) leaves the same state and gives the same
    conversation, the one stored under (min A B, max A B); once it exists,
    every later lookup or creation by either side resolves to it and changes
    nothing.  A ≠ B is not needed. *)
Theorem canonicalization_symmetry (w : World) (A B : Z) :
  (∀ method, get_or_create_conversation method A B w
             = get_or_create_conversation method B A w) ∧
  ∃ c w',
    get_or_create_conversation POST A B w = (w', Ret (Some c)) ∧
    get_or_create_conversation POST B A w = (w', Ret (Some c)) ∧
    user1_id c = Z.min A B ∧ user2_id c = Z.max A B ∧
    ∀ method,
      get_or_create_conversation method A B w' = (w', Ret (Some c)) ∧
      get_or_create_conversation method B A w' = (w', Ret (Some c)).
Proof.
  split.
  - intros method. unfold get_or_create_conversation.
    by rewrite (Z.min_comm A B), (Z.max_comm A B).
  - exists (canonical_conversation A B w), (with_conversation A B w).
    pose proof (canonical_conversation_pair A B w) as [H1 H2].
    repeat split; try done.
    + apply get_or_create_POST.
    + rewrite get_or_create_POST.
      by rewrite with_conversation_comm, canonical_conversation_comm.
    + apply get_or_create_found, conversation_first_with.
    + apply get_or_create_found.
      rewrite (Z.min_comm B A), (Z.max_comm B A).
      apply conversation_first_with.
Qed.

(** ** The conversation table over a run *)

Lemma conversations_with (a b : Z) (w : World) :
  conversations (with_conversation a b w) = conversations w ∨
  (conversation_first (Z.min a b) (Z.max a b) w = None ∧
   conversations (with_conversation a b w)
   = conversations w ++ [mkConversation (next_id (conv_id <$> conversations w))
                                        (Z.min a b) (Z.max a b)]).
Proof.
  unfold with_conversation, canonical_conversation.
  destruct (conversation_first _ _ w) eqn:E; [by left | by right].
Qed.

Lemma conversations_handle_chat (method : http_method) (a b : Z)
    (data : gmap string pyval) (now : Z) (w : World) :
  conversations (handle_chat method a b data now w).1
  = match method with
    | GET => conversations w
    | POST => conversations (with_conversation a b w)
    end.
Proof.
  destruct method.
  - by rewrite handle_chat_GET.
  - destruct (data !! "content") as [v|] eqn:Hd.
    + by rewrite (handle_chat_POST_content _ _ _ _ _ v).
    + by rewrite handle_chat_POST_no_content.
Qed.

Lemma conversations_step (w : World) (r : request) :
  conversations (step w r) = conversations w ∨
  ∃ a b, conversation_first (Z.min a b) (Z.max a b) w = None ∧
         conversations (step w r)
         = conversations w ++ [mkConversation (next_id (conv_id <$> conversations w))
                                              (Z.min a b) (Z.max a b)].
Proof.
  unfold step, dispatch. destruct r as [u | method a b data now]; simpl.
  - by left.
  - pose proof (conversations_handle_chat method a b data now w) as Hc.
    destruct (handle_chat method a b data now w) as [w' [r|e]]; simpl in *;
      rewrite Hc; destruct method; try (by left);
      destruct (conversations_with a b w) as [->|[E ->]]; eauto.
Qed.

Lemma conversations_ok_step (w : World) (r : request) :
  conversations_ok w → conversations_ok (step w r).
Proof.
  intros [Hle Hnd]. unfold conversations_ok.
  destruct (conversations_step w r) as [->|(a & b & E & ->)]; [done|].
  split.
  - apply Forall_app. split; [done|]. constructor; [simpl; lia | constructor].
  - rewrite fmap_app. apply NoDup_app. split_and!; [done | | apply NoDup_singleton].
    intros p Hp Hp'. apply list_elem_of_singleton in Hp'. subst p.
    apply list_elem_of_fmap in Hp as (c & Hc & Hin).
    unfold conversation_first in E. rewrite head_filter_None in E.
    rewrite Forall_forall in E. apply (E c Hin).
    unfold pair_of in Hc. simpl in Hc. by inversion Hc.
Qed.

Lemma run_cons (r : request) (rs : list request) (w : World) :
  run (r :: rs) w = run rs (step w r).
Proof. reflexivity. Qed.

Lemma conversations_ok_run (rs : list request) (w : World) :
  conversations_ok w → conversations_ok (run rs w).
Proof.
  revert w. induction rs as [|r rs IH]; intros w Hw; simpl; [done|].
  apply IH, conversations_ok_step, Hw.
Qed.

(** C2. Conversation-store invariant: from a table with canonical rows and
    no repeated pair (the empty table is one), after any sequence of chat
    requests every row has user1_id ≤ user2_id and any two rows between the
    same two users are the same row. *)
Theorem conversation_store_invariant (rs : list request) (w : World) :
  conversations_ok w →
  Forall (λ c, user1_id c ≤ user2_id c) (conversations (run rs w)) ∧
  ∀ (A B : Z) (i j : nat) (ci cj : Conversation),
    conversations (run rs w) !! i = Some ci →
    conversations (run rs w) !! j = Some cj →
    between ci A B → between cj A B → i = j.
Proof.
  intros Hw. apply (conversations_ok_run rs) in Hw as [Hle Hnd].
  split; [done|].
  intros A B i j ci cj Hi Hj Hci Hcj.
  eapply NoDup_lookup; [exact Hnd | |].
  - rewrite list_lookup_fmap, Hi. reflexivity.
  - rewrite list_lookup_fmap, Hj. simpl. f_equal.
    rewrite Forall_forall in Hle.
    pose proof (Hle ci (list_elem_of_lookup_2 _ _ _ Hi)).
    pose proof (Hle cj (list_elem_of_lookup_2 _ _ _ Hj)).
    unfold pair_of. unfold between in *. f_equal; lia.
Qed.

Lemma conversation_store_invariant_witness :
  conversations_ok empty_world ∧
  Forall (λ c, user1_id c ≤ user2_id c)
         (conversations (run sample_requests empty_world)) ∧
  ∀ (A B : Z) (i j : nat) (ci cj : Conversation),
    conversations (run sample_requests empty_world) !! i = Some ci →
    conversations (run sample_requests empty_world) !! j = Some cj →
    between ci A B → between cj A B → i = j.
Proof.
  assert (H : conversations_ok empty_world).
  { split; simpl; constructor. }
  split; [exact H|].
  exact (conversation_store_invariant sample_requests empty_world H).
Defined.

(** ** Reading and appending messages *)

Lemma list_messages_comm (a b : Z) (w : World) :
  list_messages a b w = list_messages b a w.
Proof. unfold list_messages. by rewrite (Z.min_comm a b), (Z.max_comm a b). Qed.

Lemma messages_of_fresh (w : World) :
  messages_ok w → messages_of (next_id (conv_id <$> conversations w)) w = [].
Proof.
  intros Hok. unfold messages_of, messages_ok in *.
  induction Hok as [|m ms Hm _ IH]; [done|].
  rewrite filter_cons, decide_False; [done|].
  intros Heq. rewrite Heq in Hm. by apply next_id_fresh in Hm.
Qed.

Lemma list_messages_with (a b : Z) (w : World) :
  messages_ok w → list_messages a b (with_conversation a b w) = list_messages a b w.
Proof.
  intros Hok. unfold list_messages at 1. rewrite conversation_first_with.
  unfold list_messages, with_conversation, canonical_conversation.
  destruct (conversation_first _ _ w) as [c|] eqn:E; simpl; [done|].
  change (messages_of ?i (set_conversations _ w)) with (messages_of i w).
  by rewrite messages_of_fresh.
Qed.

Lemma messages_ok_with (a b : Z) (w : World) :
  messages_ok w → messages_ok (with_conversation a b w).
Proof.
  unfold messages_ok, with_conversation.
  destruct (conversation_first _ _ w); [done|]. simpl.
  intros Hok. eapply Forall_impl; [exact Hok|].
  intros m Hm. simpl in *. rewrite fmap_app. apply elem_of_app. by left.
Qed.

Lemma canonical_conversation_elem (a b : Z) (w : World) :
  canonical_conversation a b w ∈ conversations (with_conversation a b w).
Proof.
  pose proof (conversation_first_with a b w) as E.
  unfold conversation_first in E.
  apply head_Some_elem_of, list_elem_of_filter in E. tauto.
Qed.

(** One post, seen through the next listing. *)
Lemma list_messages_post (a b : Z) (data : gmap string pyval) (now : Z) (w : World) :
  messages_ok w →
  messages_ok (step w (HandleChat POST a b data now)) ∧
  list_messages a b (step w (HandleChat POST a b data now))
  = list_messages a b w ++ option_list (data !! "content").
Proof.
  intros Hok. unfold step, dispatch, view_of.
  destruct (data !! "content") as [v|] eqn:Hd.
  - rewrite (handle_chat_POST_content _ _ _ _ _ v Hd). simpl. split.
    + unfold messages_ok. simpl. apply Forall_app. split.
      * by apply messages_ok_with.
      * constructor; [|constructor]. simpl.
        apply list_elem_of_fmap_2, canonical_conversation_elem.
    + rewrite <- (list_messages_with a b w Hok).
      unfold list_messages. simpl.
      change (conversation_first ?x ?y (set_messages _ ?w'))
        with (conversation_first x y w').
      rewrite conversation_first_with.
      unfold messages_of. simpl.
      rewrite filter_app, filter_cons, decide_True by done.
      by rewrite fmap_app.
  - rewrite (handle_chat_POST_no_content _ _ _ _ _ Hd). simpl. split.
    + by apply messages_ok_with.
    + by rewrite app_nil_r, list_messages_with.
Qed.

Lemma list_messages_run (A B : Z) (ps : list post) (w : World) :
  messages_ok w →
  list_messages A B (run (post_request A B <$> ps) w)
  = list_messages A B w ++ posted ps.
Proof.
  revert w. induction ps as [|p ps IH]; intros w Hok.
  - simpl. by rewrite app_nil_r.
  - rewrite fmap_cons, run_cons.
    assert (messages_ok (step w (post_request A B p)) ∧
            list_messages A B (step w (post_request A B p))
            = list_messages A B w ++ option_list (post_data p !! "content"))
      as [Hok' Hl].
    { unfold post_request. destruct (from_first p).
      - by apply list_messages_post.
      - rewrite !(list_messages_comm A B). by apply list_messages_post. }
    rewrite IH, Hl by done. rewrite <- app_assoc. f_equal.
    unfold posted. simpl. by destruct (post_data p !! "content").
Qed.

(** C3, as the code has it. A request of a user to themself is not
    rejected: when no (U,U) row exists, a POST inserts the row (U,U) and,
    given a body with ['content'], the message from U to U; a GET answers
    200 with the empty list and changes nothing. *)
Theorem self_conversation_created (w : World) (U : Z)
    (data : gmap string pyval) (now : Z) :
  conversation_first U U w = None →
  conversations (dispatch (handle_chat POST U U data now) w).1
  = conversations w ++ [mkConversation (next_id (conv_id <$> conversations w)) U U] ∧
  (∀ v, data !! "content" = Some v →
        messages (dispatch (handle_chat POST U U data now) w).1
        = messages w ++ [mkMessage (next_id (msg_id <$> messages w))
                                   (next_id (conv_id <$> conversations w))
                                   U U v now]) ∧
  dispatch (handle_chat GET U U data now) w = (w, (JContents [], 200)).
Proof.
  intros E.
  assert (Hw : with_conversation U U w
               = set_conversations
                   (conversations w ++
                      [mkConversation (next_id (conv_id <$> conversations w)) U U]) w).
  { unfold with_conversation, canonical_conversation.
    rewrite Z.min_id, Z.max_id, E. reflexivity. }
  assert (Hc : canonical_conversation U U w
               = mkConversation (next_id (conv_id <$> conversations w)) U U).
  { unfold canonical_conversation. rewrite Z.min_id, Z.max_id, E. reflexivity. }
  split_and!.
  - unfold dispatch.
    destruct (data !! "content") as [v|] eqn:Hd.
    + rewrite (handle_chat_POST_content _ _ _ _ _ v Hd). simpl. by rewrite Hw.
    + rewrite (handle_chat_POST_no_content _ _ _ _ _ Hd). simpl. by rewrite Hw.
  - intros v Hd. unfold dispatch.
    rewrite (handle_chat_POST_content _ _ _ _ _ v Hd). simpl.
    by rewrite Hw, Hc.
  - unfold dispatch. rewrite handle_chat_GET. unfold list_messages.
    rewrite Z.min_id, Z.max_id, E. reflexivity.
Qed.

Lemma self_conversation_created_witness :
  conversation_first 4 4 sample_world = None ∧
  conversations (dispatch (handle_chat POST 4 4 hello 30) sample_world).1
  = conversations sample_world ++ [mkConversation 3 4 4].
Proof.
  assert (H : conversation_first 4 4 sample_world = None) by reflexivity.
  split; [exact H|].
  exact (proj1 (self_conversation_created sample_world 4 hello 30 H)).
Defined.

(** C3, as the spec has it, fails: user 7 posting to user 7 on the empty
    store is answered with the handler's generic 500 after the row (7,7)
    and the message have been committed. *)
Lemma self_conversation_not_rejected :
  dispatch (handle_chat POST 7 7 hello 0) empty_world
  = (mkWorld [mkConversation 1 7 7] [mkMessage 1 1 7 7 (PStr "hello") 0] [] [] [] [],
     (JError "name 'emit' is not defined", 500)) ∧
  conversations (dispatch (handle_chat POST 7 7 hello 0) empty_world).1
  ≠ conversations empty_world.
Proof. split; [reflexivity | discriminate]. Qed.

(** C4. Read never creates, and an empty read is no error: listing the
    messages of a pair whose conversation was never created, or whose
    conversation has no message, answers 200 with the empty list and leaves
    the whole state as it was. *)
Theorem read_never_creates (w : World) (A B : Z) (data : gmap string pyval)
    (now : Z) :
  (conversation_first (Z.min A B) (Z.max A B) w = None ∨
   ∃ c, conversation_first (Z.min A B) (Z.max A B) w = Some c ∧
        messages_of (conv_id c) w = []) →
  dispatch (handle_chat GET A B data now) w = (w, (JContents [], 200)).
Proof.
  intros H. unfold dispatch. rewrite handle_chat_GET. unfold list_messages.
  destruct H as [->|(c & -> & ->)]; reflexivity.
Qed.

Lemma read_never_creates_witness :
  dispatch (handle_chat GET 3 1 ∅ 40) sample_world = (sample_world, (JContents [], 200)) ∧
  dispatch (handle_chat GET 2 5 ∅ 41) sample_world = (sample_world, (JContents [], 200)).
Proof.
  split.
  - apply read_never_creates. right. exists (mkConversation 2 1 3).
    split; reflexivity.
  - apply read_never_creates. left. reflexivity.
Defined.

(** C5. Order preservation: whatever a listing of the pair returned
    before, after any sequence of posts between the two users, from either
    side, the listing returns that followed by the posted bodies in the
    order they were posted, the last one last. *)
Theorem order_preservation (w : World) (A B : Z) (ps : list post)
    (before : list pyval) (data : gmap string pyval) (now : Z) :
  messages_ok w →
  dispatch (handle_chat GET A B data now) w = (w, (JContents before, 200)) →
  dispatch (handle_chat GET A B data now) (run (post_request A B <$> ps) w)
  = (run (post_request A B <$> ps) w, (JContents (before ++ posted ps), 200)).
Proof.
  intros Hok. unfold dispatch. rewrite !handle_chat_GET.
  intros Hb. inversion Hb as [Hb']. rewrite Hb'.
  by rewrite list_messages_run, Hb'.
Qed.

Lemma order_preservation_witness :
  messages_ok sample_world ∧
  dispatch (handle_chat GET 2 1 ∅ 50) (run (post_request 2 1 <$> sample_posts) sample_world)
  = (run (post_request 2 1 <$> sample_posts) sample_world,
     (JContents [PStr "hello"; PStr "again"; PStr "hello"], 200)).
Proof.
  assert (H : messages_ok sample_world).
  { unfold messages_ok. simpl. repeat constructor. }
  split; [exact H|].
  exact (order_preservation sample_world 2 1 sample_posts [PStr "hello"] ∅ 50 H eq_refl).
Defined.

(** ** Failures after a commit *)

(** C6, as the code has it. A GET never changes the state.  A POST whose
    body lacks ['content'] ends in the 500 of the KeyError and adds no
    message; the state is unchanged when the pair's conversation existed,
    but a conversation row inserted by this request stays committed. *)
Theorem failed_post_keeps_conversation (w : World) (A B : Z)
    (data : gmap string pyval) (now : Z) :
  data !! "content" = None →
  (dispatch (handle_chat GET A B data now) w).1 = w ∧
  (dispatch (handle_chat POST A B data now) w).2 = (JError "'content'", 500) ∧
  messages (dispatch (handle_chat POST A B data now) w).1 = messages w ∧
  match conversation_first (Z.min A B) (Z.max A B) w with
  | Some _ => (dispatch (handle_chat POST A B data now) w).1 = w
  | None =>
      (dispatch (handle_chat POST A B data now) w).1
      = set_conversations
          (conversations w ++
             [mkConversation (next_id (conv_id <$> conversations w))
                             (Z.min A B) (Z.max A B)]) w
  end.
Proof.
  intros Hd. unfold dispatch.
  rewrite handle_chat_GET, (handle_chat_POST_no_content _ _ _ _ _ Hd). simpl.
  unfold with_conversation, canonical_conversation.
  destruct (conversation_first _ _ w); done.
Qed.

Lemma failed_post_keeps_conversation_witness :
  (dispatch (handle_chat POST 2 3 ∅ 70) sample_world).2 = (JError "'content'", 500) ∧
  (dispatch (handle_chat POST 2 3 ∅ 70) sample_world).1
  = set_conversations (conversations sample_world ++ [mkConversation 3 2 3]) sample_world.
Proof.
  pose proof (failed_post_keeps_conversation sample_world 2 3 ∅ 70 eq_refl)
    as (_ & H2 & _ & H4).
  split; [exact H2 | exact H4].
Defined.

(** C6, as the spec has it, fails: a POST without ['content'] between
    users 1 and 2 on the empty store ends in an error and leaves the new
    conversation row behind. *)
Lemma error_after_commit :
  dispatch (handle_chat POST 1 2 ∅ 0) empty_world
  = (mkWorld [mkConversation 1 1 2] [] [] [] [] [], (JError "'content'", 500)) ∧
  (dispatch (handle_chat POST 1 2 ∅ 0) empty_world).1 ≠ empty_world.
Proof. split; [reflexivity | discriminate]. Qed.

(** ** The broadcast *)

(** What the handler does in a namespace that binds [emit]: one event per
    connected client, all with the same payload. *)
Lemma handle_chat_in_emit_bound (names : list string) (a b : Z)
    (data : gmap string pyval) (now : Z) (w : World) (v : pyval) (r : User) :
  "emit" ∈ names →
  data !! "content" = Some v →
  user_get b w = Some r →
  ∃ w', handle_chat_in names POST a b data now w = (w', Ret (JMessage "sent", 201)) ∧
        outbox w'
        = outbox w ++
          ((λ sid, (sid, mkNewChat (conv_id (canonical_conversation a b w))
                                   (username r) v now
                                   (profile r ≫= profile_picture)))
             <$> clients w).
Proof.
  intros Hin Hd Hr. eexists. split.
  - unfold handle_chat_in, mbind, M_bind. rewrite get_or_create_POST.
    unfold lift, getitem. rewrite Hd. simpl.
    unfold load_global. rewrite bool_decide_eq_true_2 by done. simpl.
    change (user_get b (set_messages _ ?w')) with (user_get b w').
    replace (user_get b (with_conversation a b w)) with (Some r).
    + reflexivity.
    + rewrite <- Hr. unfold with_conversation.
      by destruct (conversation_first _ _ w).
  - simpl. unfold with_conversation.
    destruct (conversation_first _ _ w); simpl; by destruct (profile r).
Qed.

(** C9 at its failing input. With three clients connected, user 1 posts
    "again" to user 2: the message is committed, then the call of [emit],
    a name the module never binds, raises; no event is delivered and the
    client gets the 500. *)
Theorem emit_is_unbound :
("emit" ∉ module_names) ∧
  clients sample_world = [100; 101; 102] ∧
  dispatch (handle_chat POST 1 2 again 60) sample_world
  = (set_messages (messages sample_world ++ [mkMessage 2 1 1 2 (PStr "again") 60])
                  sample_world,
     (JError "name 'emit' is not defined", 500)) ∧
  outbox (dispatch (handle_chat POST 1 2 again 60) sample_world).1 = [].
Proof.
  split_and!; try reflexivity.
  apply (bool_decide_eq_false_1 ("emit" ∈ module_names)). reflexivity.
Qed.

(** ** Creating by posting *)

(** C10, as the code has it. For a pair without a conversation, one POST
    whose body carries ['content'] inserts the canonical row and the
    message, and the listing of either side then returns exactly that
    message; a POST whose body lacks ['content'] inserts the row and no
    message. *)
Theorem fused_create_and_append (w : World) (A B : Z)
    (data : gmap string pyval) (now : Z) (v : pyval) :
  messages_ok w →
  conversation_first (Z.min A B) (Z.max A B) w = None →
  data !! "content" = Some v →
  let c := mkConversation (next_id (conv_id <$> conversations w))
                          (Z.min A B) (Z.max A B) in
  let w' := (dispatch (handle_chat POST A B data now) w).1 in
  conversations w' = conversations w ++ [c] ∧
  messages w' = messages w ++ [mkMessage (next_id (msg_id <$> messages w))
                                         (conv_id c) A B v now] ∧
  (∀ d t, dispatch (handle_chat GET A B d t) w' = (w', (JContents [v], 200))) ∧
  (∀ d t, dispatch (handle_chat GET B A d t) w' = (w', (JContents [v], 200))) ∧
  (∀ d t, d !! "content" = None →
          conversations (dispatch (handle_chat POST A B d t) w).1
          = conversations w ++ [c] ∧
          messages (dispatch (handle_chat POST A B d t) w).1 = messages w).
Proof.
  intros Hok E Hd c w'.
  assert (Hl : list_messages A B w' = [v]).
  { pose proof (list_messages_post A B data now w Hok) as [_ Hl].
    unfold step, view_of in Hl. fold w' in Hl. rewrite Hl, Hd.
    unfold list_messages. by rewrite E. }
  subst w' c. unfold dispatch in *.
  rewrite (handle_chat_POST_content _ _ _ _ _ v Hd) in *. simpl in *.
  unfold with_conversation, canonical_conversation in *. rewrite E in *.
  simpl in *. split_and!; try done.
  - intros d t. by rewrite handle_chat_GET, Hl.
  - intros d t. by rewrite handle_chat_GET, <- list_messages_comm, Hl.
  - intros d t Hn. rewrite (handle_chat_POST_no_content _ _ _ _ _ Hn).
    unfold with_conversation, canonical_conversation. by rewrite E.
Qed.

Lemma fused_create_and_append_witness :
  dispatch (handle_chat GET 3 2 ∅ 81)
           (dispatch (handle_chat POST 2 3 hello 80) sample_world).1
  = ((dispatch (handle_chat POST 2 3 hello 80) sample_world).1,
     (JContents [PStr "hello"], 200)).
Proof.
  assert (H : messages_ok sample_world).
  { unfold messages_ok. simpl. repeat constructor. }
  pose proof (fused_create_and_append sample_world 2 3 hello 80 (PStr "hello")
                H eq_refl eq_refl) as (_ & _ & _ & H4 & _).
  exact (H4 ∅ 81).
Defined.

(** C10, as the spec has it, fails: a POST without ['content'] from user 5
    to user 9, who have no conversation, creates their conversation with no
    message in it. *)
Lemma empty_conversation_by_post :
  conversation_first 5 9 sample_world = None ∧
  conversation_first 5 9 (dispatch (handle_chat POST 9 5 ∅ 90) sample_world).1
  = Some (mkConversation 3 5 9) ∧
  messages_of 3 (dispatch (handle_chat POST 9 5 ∅ 90) sample_world).1 = [].
Proof. split_and!; reflexivity. Qed.

(** ** The comment tree *)

Lemma mapM_result_Forall2 {A B} (f : A → result B) (R : A → B → Prop) (l : list A) :
  Forall (λ x, ∃ y, f x = Ret y ∧ R x y) l →
  ∃ ys, mapM f l = Ret ys ∧ Forall2 R l ys.
Proof.
  induction 1 as [|x l (y & Hy & HR) _ (ys & Hys & HRs)].
  - exists []. split; [reflexivity | constructor].
  - exists (y :: ys). split; [|by constructor].
    simpl. rewrite Hy. simpl. rewrite Hys. reflexivity.
Qed.

Lemma foldr_min_le (ids : list Z) (x : Z) : x ∈ ids → foldr Z.min 0 ids ≤ x.
Proof.
  induction 1 as [x l | x y l _ IH]; simpl; lia.
Qed.

(** Enough depth gives the tree of a comment. *)
Lemma build_comment_tree_ok (w : World) :
  replies_later w → authors_exist w →
  ∀ (depth : nat) (c : Comment),
    c ∈ comments w →
    (Z.to_nat (foldr Z.max 0 (comment_id <$> comments w) - comment_id c)%Z < depth)%nat →
    ∃ n, build_comment_tree depth w c = Ret n ∧ tree_of w c n.
Proof.
  intros Hlater Hauth. unfold replies_later, authors_exist in *.
  rewrite Forall_forall in Hlater, Hauth.
  induction depth as [|depth IH]; intros c Hc Hd; [lia|].
  destruct (Hauth c Hc) as [u Hu].
  destruct (mapM_result_Forall2 (build_comment_tree depth w) (tree_of w)
              (comment_replies w c)) as (kids & Hkids & Hrel).
  { apply Forall_forall. intros r Hr.
    apply list_elem_of_filter in Hr as [Hp Hr].
    apply IH; [done|].
    pose proof (Hlater r Hr _ Hp).
    pose proof (foldr_max_ge _ _ (list_elem_of_fmap_2 comment_id _ _ Hr)).
    lia. }
  exists (mkNode (comment_id c) (username u) (body c) (created_at c) kids).
  split; [|by econstructor].
  simpl. unfold comment_username. rewrite Hu. simpl. rewrite Hkids. reflexivity.
Qed.

Lemma get_threaded_comments_ok (w : World) (content_id : Z) (depth : nat) :
  replies_later w → authors_exist w → (depth_needed w ≤ depth)%nat →
  ∃ trees,
    dispatch (get_threaded_comments depth content_id) w = (w, (JTree trees, 200)) ∧
    Forall2 (tree_of w) (top_level content_id w) trees.
Proof.
  intros Hlater Hauth Hd.
  destruct (mapM_result_Forall2 (build_comment_tree depth w) (tree_of w)
              (top_level content_id w)) as (trees & Htrees & Hrel).
  { apply Forall_forall. intros c Hc.
    apply list_elem_of_filter in Hc as [_ Hc].
    apply build_comment_tree_ok; [done..|].
    pose proof (foldr_min_le _ _ (list_elem_of_fmap_2 comment_id _ _ Hc)).
    unfold depth_needed in Hd. lia. }
  exists trees. split; [|done].
  unfold dispatch, get_threaded_comments, mbind, M_bind, gets, reads.
  rewrite Htrees. reflexivity.
Qed.

Lemma build_comment_tree_S (depth : nat) (w : World) (c : Comment) :
  build_comment_tree (S depth) w c
  = (user ← comment_username w c;
     replies ← mapM (build_comment_tree depth w) (comment_replies w c);
     mret (mkNode (comment_id c) user (body c) (created_at c) replies)).
Proof. reflexivity. Qed.

Lemma mapM_result_cons {A B} (f : A → result B) (x : A) (l : list A) :
  mapM f (x :: l) = (y ← f x; k ← mapM f l; mret (y :: k)).
Proof. reflexivity. Qed.

Section Chain.

Variables (w : World) (c1 c2 c3 : Comment) (u1 u2 u3 : User).

Hypothesis Hcomments : comments w = [c1; c2; c3].
Hypothesis Hroot : parent_comment_id c1 = None.
Hypothesis Hreply2 : parent_comment_id c2 = Some (comment_id c1).
Hypothesis Hreply3 : parent_comment_id c3 = Some (comment_id c2).
Hypothesis Hne12 : comment_id c1 ≠ comment_id c2.
Hypothesis Hne23 : comment_id c2 ≠ comment_id c3.
Hypothesis Hne13 : comment_id c1 ≠ comment_id c3.

Lemma chain_top_level : top_level (comment_content_id c1) w = [c1].
Proof.
  unfold top_level. rewrite Hcomments, !filter_cons, filter_nil.
  rewrite Hroot, Hreply2, Hreply3.
  repeat case_decide; first [done | exfalso; intuition congruence].
Qed.

Lemma chain_replies1 : comment_replies w c1 = [c2].
Proof.
  unfold comment_replies. rewrite Hcomments, !filter_cons, filter_nil.
  rewrite Hroot, Hreply2, Hreply3.
  repeat case_decide; first [done | exfalso; intuition congruence].
Qed.

Lemma chain_replies2 : comment_replies w c2 = [c3].
Proof.
  unfold comment_replies. rewrite Hcomments, !filter_cons, filter_nil.
  rewrite Hroot, Hreply2, Hreply3.
  repeat case_decide; first [done | exfalso; intuition congruence].
Qed.

Lemma chain_replies3 : comment_replies w c3 = [].
Proof.
  unfold comment_replies. rewrite Hcomments, !filter_cons, filter_nil.
  rewrite Hroot, Hreply2, Hreply3.
  repeat case_decide; first [done | exfalso; intuition congruence].
Qed.

Hypothesis Huser1 : user_get (comment_user_id c1) w = Some u1.
Hypothesis Huser2 : user_get (comment_user_id c2) w = Some u2.
Hypothesis Huser3 : user_get (comment_user_id c3) w = Some u3.

Lemma chain_build3 (depth : nat) :
  build_comment_tree (S depth) w c3
  = Ret (mkNode (comment_id c3) (username u3) (body c3) (created_at c3) []).
Proof.
  rewrite build_comment_tree_S. unfold comment_username.
  rewrite Huser3, chain_replies3. reflexivity.
Qed.

Lemma chain_build2 (depth : nat) :
  build_comment_tree (S (S depth)) w c2
  = Ret (mkNode (comment_id c2) (username u2) (body c2) (created_at c2)
           [mkNode (comment_id c3) (username u3) (body c3) (created_at c3) []]).
Proof.
  rewrite build_comment_tree_S. unfold comment_username.
  rewrite Huser2, chain_replies2, mapM_result_cons, chain_build3. reflexivity.
Qed.

Lemma chain_build1 (depth : nat) :
  build_comment_tree (S (S (S depth))) w c1
  = Ret (mkNode (comment_id c1) (username u1) (body c1) (created_at c1)
           [mkNode (comment_id c2) (username u2) (body c2) (created_at c2)
              [mkNode (comment_id c3) (username u3) (body c3)
                      (created_at c3) []]]).
Proof.
  rewrite build_comment_tree_S. unfold comment_username.
  rewrite Huser1, chain_replies1, mapM_result_cons, chain_build2. reflexivity.
Qed.

(** A root, a reply to it and a reply to the reply come out as one root
    holding one child holding one child. *)
Lemma chain_tree (depth : nat) :
  (3 ≤ depth)%nat →
  dispatch (get_threaded_comments depth (comment_content_id c1)) w
  = (w, (JTree
           [mkNode (comment_id c1) (username u1) (body c1) (created_at c1)
              [mkNode (comment_id c2) (username u2) (body c2) (created_at c2)
                 [mkNode (comment_id c3) (username u3) (body c3)
                         (created_at c3) []]]], 200)).
Proof.
  intros Hd. destruct depth as [|[|[|depth]]]; try lia.
  unfold dispatch, get_threaded_comments, mbind, M_bind, gets, reads.
  rewrite chain_top_level, mapM_result_cons, chain_build1. reflexivity.
Qed.

End Chain.

(** C7. Threaded-tree construction: when replies carry larger keys than
    their parents and authors exist, then with enough nesting depth the
    reader answers 200 with one tree per top-level comment of the content,
    in table order, each node holding the comment's id, its author's name,
    its body, its creation time and the trees of its replies in order, and
    changes nothing.  For a table of a root, a reply to it and a reply to
    that reply, the answer is the one root with one child with one child. *)
Theorem threaded_tree_construction :
  (∀ (w : World) (content_id : Z) (depth : nat),
     replies_later w → authors_exist w → (depth_needed w ≤ depth)%nat →
     ∃ trees,
       dispatch (get_threaded_comments depth content_id) w = (w, (JTree trees, 200)) ∧
       Forall2 (tree_of w) (top_level content_id w) trees) ∧
  (∀ (w : World) (c1 c2 c3 : Comment) (u1 u2 u3 : User) (depth : nat),
     comments w = [c1; c2; c3] →
     parent_comment_id c1 = None →
     parent_comment_id c2 = Some (comment_id c1) →
     parent_comment_id c3 = Some (comment_id c2) →
     comment_id c1 ≠ comment_id c2 →
     comment_id c2 ≠ comment_id c3 →
     comment_id c1 ≠ comment_id c3 →
     user_get (comment_user_id c1) w = Some u1 →
     user_get (comment_user_id c2) w = Some u2 →
     user_get (comment_user_id c3) w = Some u3 →
     (3 ≤ depth)%nat →
     dispatch (get_threaded_comments depth (comment_content_id c1)) w
     = (w, (JTree
              [mkNode (comment_id c1) (username u1) (body c1) (created_at c1)
                 [mkNode (comment_id c2) (username u2) (body c2) (created_at c2)
                    [mkNode (comment_id c3) (username u3) (body c3)
                            (created_at c3) []]]], 200))).
Proof.
  split.
  - apply get_threaded_comments_ok.
  - intros. by apply chain_tree.
Qed.

Lemma threaded_tree_construction_witness :
  (∃ trees,
     dispatch (get_threaded_comments 14 1) sample_thread
     = (sample_thread, (JTree trees, 200)) ∧
     Forall2 (tree_of sample_thread) (top_level 1 sample_thread) trees) ∧
  dispatch (get_threaded_comments 3 1) sample_chain
  = (sample_chain,
     (JTree [mkNode 10 "ann" "first" 100
               [mkNode 11 "bob" "second" 101
                  [mkNode 12 "ann" "third" 102 []]]], 200)).
Proof.
  split.
  - apply (proj1 threaded_tree_construction).
    + unfold replies_later. simpl. repeat constructor; simpl; intros p [= <-]; lia.
    + unfold authors_exist. simpl. repeat constructor; simpl; eexists; reflexivity.
    + vm_compute. lia.
  - apply (proj2 threaded_tree_construction sample_chain
             (mkComment 10 1 1 "first" 100 None)
             (mkComment 11 1 2 "second" 101 (Some 10))
             (mkComment 12 1 1 "third" 102 (Some 11))
             (mkUser 1 "ann" None) (mkUser 2 "bob" None) (mkUser 1 "ann" None) 3%nat);
      simpl; (reflexivity || lia).
Defined.

(** ** Posting a comment *)

(** C8, as the code has it. [post_comment] never looks at a parent: given
    ['content_id'] and ['text'] it inserts a comment on that content with a
    null parent and answers 201, whatever ['parent_comment_id'] the body
    carries and whichever content that comment belongs to. *)
Theorem post_comment_ignores_parent (current_user : Z)
    (data : gmap string pyval) (table : list App_20250427.Comment)
    (cid txt : pyval) :
  data !! "content_id" = Some cid →
  data !! "text" = Some txt →
  let comment :=
    App_20250427.mkComment (next_id (App_20250427.comment_id <$> table))
                           current_user cid txt None in
  App_20250427.post_comment current_user data table
  = (table ++ [comment], Ret (comment, 201)) ∧
  ∀ parent,
    App_20250427.post_comment current_user
      (<["parent_comment_id" := parent]> data) table
    = App_20250427.post_comment current_user data table.
Proof.
  intros Hc Ht comment. unfold App_20250427.post_comment, getitem.
  split.
  - rewrite Hc, Ht. reflexivity.
  - intros parent. by rewrite !lookup_insert_ne.
Qed.

Lemma post_comment_ignores_parent_witness :
  App_20250427.post_comment 3 cross_reply sample_comments
  = (sample_comments ++ [App_20250427.mkComment 8 3 (PInt 1) (PStr "re") None],
     Ret (App_20250427.mkComment 8 3 (PInt 1) (PStr "re") None, 201)).
Proof.
  exact (proj1 (post_comment_ignores_parent 3 cross_reply sample_comments
                  (PInt 1) (PStr "re") eq_refl eq_refl)).
Defined.

(** C8, as the spec has it, fails: comment 7 belongs to content 2; user 3
    answers it under content 1; the request is accepted with 201 and a row
    is inserted. *)
Lemma cross_content_reply_accepted :
  cross_reply !! "parent_comment_id" = Some (PInt 7) ∧
  App_20250427.content_id <$> sample_comments !! 0%nat = Some (PInt 2) ∧
  cross_reply !! "content_id" = Some (PInt 1) ∧
  App_20250427.post_comment 3 cross_reply sample_comments
  = ([App_20250427.mkComment 7 1 (PInt 2) (PStr "first") None;
      App_20250427.mkComment 8 3 (PInt 1) (PStr "re") None],
     Ret (App_20250427.mkComment 8 3 (PInt 1) (PStr "re") None, 201)).
Proof. split_and!; reflexivity. Qed.

(** ** Likes *)

(** Closes a decidable goal on concrete data by evaluation. *)
Ltac by_evaluation := apply (bool_decide_unpack _); vm_compute; exact I.

Lemma NoDup_fmap_filter {A B} (f : A → B) (P : A → Prop) `{∀ x, Decision (P x)}
    (l : list A) :
  NoDup (f <$> l) → NoDup (f <$> filter P l).
Proof.
  intros Hnd. eapply sublist_NoDup; [exact Hnd|].
  apply fmap_sublist, sublist_filter.
Qed.

Lemma delete_like_fresh (l : Like) (t : list Like) :
  like_id l ∉ like_id <$> t → delete_like l t = t.
Proof.
  intros Hn. unfold delete_like. induction t as [|x t IH]; [done|].
  rewrite fmap_cons, not_elem_of_cons in Hn. destruct Hn as [Hx Ht].
  rewrite filter_cons, decide_True by done. by rewrite IH.
Qed.

Lemma delete_like_last (l : Like) (t : list Like) :
  like_id l ∉ like_id <$> t → delete_like l (t ++ [l]) = t.
Proof.
  intros Hn. rewrite <- (delete_like_fresh l t Hn) at 2.
  unfold delete_like. rewrite filter_app, (filter_cons _ l).
  rewrite decide_False by (intros Hne; by apply Hne).
  by rewrite filter_nil, app_nil_r.
Qed.

Lemma like_count_app (c : pyval) (t k : list Like) :
  like_count_of c (t ++ k) = (like_count_of c t + like_count_of c k)%nat.
Proof. unfold like_count_of. by rewrite filter_app, length_app. Qed.

Lemma like_first_None_filter (u : Z) (c : pyval) (t : list Like) :
  like_first u c t = None →
  filter (λ l, like_user_id l = u ∧ like_content_id l = c) t = [].
Proof. unfold like_first. by destruct (filter _ t). Qed.

Lemma toggle_like_POST_new (u c : Z) (t : list Like) :
  like_first u (PInt c) t = None →
  toggle_like LIKE_POST u c t
  = (t ++ [mkLike (next_id (like_id <$> t)) u (PInt c)],
     (LikeCount "Liked successfully" (S (like_count_of (PInt c) t)), 201)).
Proof.
  intros E. unfold toggle_like. rewrite E. simpl.
  rewrite like_count_app. unfold like_count_of at 2.
  rewrite filter_cons, decide_True by done. simpl.
  by rewrite Nat.add_1_r.
Qed.

Lemma like_first_after_POST (u c : Z) (t : list Like) :
  is_Some (like_first u (PInt c) (toggle_like LIKE_POST u c t).1).
Proof.
  destruct (like_first u (PInt c) t) as [l|] eqn:E.
  - unfold toggle_like. rewrite E. simpl. by rewrite E.
  - rewrite toggle_like_POST_new by done. simpl. unfold like_first in *.
    rewrite head_filter_app_None by done.
    rewrite filter_cons, decide_True by done. by eexists.
Qed.

Lemma likes_toggle_keeps (method : like_method) (u c : Z) (t : list Like) :
  likes_ok t → NoDup (like_id <$> t) →
  likes_ok (toggle_like method u c t).1 ∧
  NoDup (like_id <$> (toggle_like method u c t).1).
Proof.
  unfold likes_ok, toggle_like. intros Hok Hid.
  destruct method, (like_first u (PInt c) t) as [l|] eqn:E; simpl; try done.
  - split.
    + rewrite fmap_app. apply NoDup_app.
      split_and!; [done | | apply NoDup_singleton].
      intros p Hp Hp'. apply list_elem_of_singleton in Hp'. subst p.
      apply list_elem_of_fmap in Hp as (x & Hx & Hin).
      unfold like_first in E. rewrite head_filter_None, Forall_forall in E.
      apply (E x Hin). simpl in Hx. by inversion Hx.
    + rewrite fmap_app. apply NoDup_app.
      split_and!; [done | | apply NoDup_singleton].
      intros i Hi Hi'. apply list_elem_of_singleton in Hi'. subst i.
      by apply next_id_fresh in Hi.
  - unfold delete_like. split; by apply NoDup_fmap_filter.
Qed.

(** X1. Over any sequence of like / unlike requests to [toggle_like], a
    table in which no user likes a content twice and keys are distinct
    stays so. *)
Theorem toggle_like_at_most_once (rs : list (like_method * Z * Z)) (t : list Like) :
  likes_ok t → NoDup (like_id <$> t) →
  likes_ok (toggle_run rs t) ∧ NoDup (like_id <$> toggle_run rs t).
Proof.
  revert t. induction rs as [|[[m u] c] rs IH]; intros t Hok Hid; [done|].
  simpl. destruct (likes_toggle_keeps m u c t Hok Hid) as [Hok' Hid'].
  by apply IH.
Qed.

Lemma toggle_like_at_most_once_witness :
  likes_ok (toggle_run [(LIKE_POST, 2, 6); (LIKE_POST, 1, 5); (LIKE_DELETE, 2, 5)]
                       sample_likes).
Proof.
  apply toggle_like_at_most_once.
  - unfold likes_ok. by_evaluation.
  - by_evaluation.
Defined.

(** X2. Like, then unlike: when the user has no like on the content, the
    POST answers 201 with one more than the content's count and the DELETE
    that follows answers 200 with the count as it was and gives back the
    table as it was. *)
Theorem toggle_like_round_trip (u c : Z) (t : list Like) :
  like_first u (PInt c) t = None →
  (toggle_like LIKE_POST u c t).2
  = (LikeCount "Liked successfully" (S (like_count_of (PInt c) t)), 201) ∧
  toggle_like LIKE_DELETE u c (toggle_like LIKE_POST u c t).1
  = (t, (LikeCount "Unliked successfully" (like_count_of (PInt c) t), 200)).
Proof.
  intros E. rewrite toggle_like_POST_new by done. simpl. split; [done|].
  unfold toggle_like, like_first.
  rewrite head_filter_app_None by done.
  rewrite filter_cons, decide_True by done. simpl.
  rewrite delete_like_last by apply next_id_fresh. done.
Qed.

Lemma toggle_like_round_trip_witness :
  toggle_like LIKE_DELETE 2 6 (toggle_like LIKE_POST 2 6 sample_likes).1
  = (sample_likes, (LikeCount "Unliked successfully" 1, 200)).
Proof.
  exact (proj2 (toggle_like_round_trip 2 6 sample_likes eq_refl)).
Defined.

(** X3. Repeating a request of [toggle_like] is refused: a like right after
    a like answers 400, an unlike right after an unlike answers 404 (the
    latter in a table where no user likes a content twice), and neither
    changes the table. *)
Theorem toggle_like_repeat_refused (u c : Z) (t : list Like) :
  likes_ok t →
  toggle_like LIKE_POST u c (toggle_like LIKE_POST u c t).1
  = ((toggle_like LIKE_POST u c t).1, (LikeMessage "Already liked", 400)) ∧
  toggle_like LIKE_DELETE u c (toggle_like LIKE_DELETE u c t).1
  = ((toggle_like LIKE_DELETE u c t).1, (LikeMessage "Like not found", 404)).
Proof.
  intros Hok. split.
  - destruct (like_first_after_POST u c t) as [l Hl].
    unfold toggle_like at 1. by rewrite Hl.
  - assert (like_first u (PInt c) (toggle_like LIKE_DELETE u c t).1 = None) as E.
    { unfold toggle_like. destruct (like_first u (PInt c) t) as [l|] eqn:E; [|done].
      simpl. unfold like_first in *. apply head_filter_None, Forall_forall.
      intros x Hx [Hu Hc]. unfold delete_like in Hx.
      apply list_elem_of_filter in Hx as [Hne Hx].
      apply head_Some_elem_of, list_elem_of_filter in E as [[Hlu Hlc] Hl].
      apply Hne. f_equal.
      unfold likes_ok in Hok.
      apply list_elem_of_lookup in Hx as [i Hi], Hl as [j Hj].
      assert (i = j) as ->; [|congruence].
      eapply NoDup_lookup; [exact Hok | |].
      - rewrite list_lookup_fmap, Hi. reflexivity.
      - rewrite list_lookup_fmap, Hj. simpl. congruence. }
    unfold toggle_like at 1. by rewrite E.
Qed.

Lemma toggle_like_repeat_refused_witness :
  toggle_like LIKE_DELETE 1 5 (toggle_like LIKE_DELETE 1 5 sample_likes).1
  = ([mkLike 2 2 (PInt 5); mkLike 3 1 (PInt 6)], (LikeMessage "Like not found", 404)).
Proof.
  refine (proj2 (toggle_like_repeat_refused 1 5 sample_likes _)).
  unfold likes_ok. by_evaluation.
Defined.

(** X4. [unlike_content] removes only a like of the caller: when the key
    names no like of the caller it answers 404 and changes nothing, and in
    a table with distinct keys every like of another user is still there
    afterwards. *)
Theorem unlike_content_own_only (current_user k : Z) (t : list Like) :
  NoDup (like_id <$> t) →
  (Forall (λ l, ¬ (like_id l = k ∧ like_user_id l = current_user)) t →
   unlike_content current_user k t = (t, (LikeError "Like not found", 404))) ∧
  ∀ l, l ∈ t → like_user_id l ≠ current_user →
       l ∈ (unlike_content current_user k t).1.
Proof.
  intros Hid. split.
  - intros Hno. unfold unlike_content.
    by rewrite (proj2 (head_filter_None _ t) Hno).
  - intros l Hl Hu. unfold unlike_content.
    destruct (head (filter _ t)) as [x|] eqn:E; simpl; [|done].
    apply head_Some_elem_of, list_elem_of_filter in E as [[Hk Hxu] Hx].
    unfold delete_like. apply list_elem_of_filter. split; [|done].
    intros Heq. apply Hu. rewrite <- Hxu. f_equal.
    apply list_elem_of_lookup in Hx as [i Hi], Hl as [j Hj].
    assert (j = i) as ->; [|congruence].
    eapply NoDup_lookup; [exact Hid | |].
    + rewrite list_lookup_fmap, Hj. reflexivity.
    + rewrite list_lookup_fmap, Hi. simpl. congruence.
Qed.

Lemma unlike_content_own_only_witness :
  unlike_content 1 2 sample_likes = (sample_likes, (LikeError "Like not found", 404)).
Proof.
  refine (proj1 (unlike_content_own_only 1 2 sample_likes _) _).
  - by_evaluation.
  - repeat constructor; simpl; intros [? ?]; congruence.
Defined.

(** X5. [like_content], then [unlike_content] of the key it answered with:
    the like is stored with 201 and removed with 200, and the table is as
    before; a body without ['content_id'] raises and stores nothing. *)
Theorem like_content_round_trip (current_user : Z) (data : gmap string pyval)
    (t : list Like) :
  match data !! "content_id" with
  | Some c =>
      let like := mkLike (next_id (like_id <$> t)) current_user c in
      like_content current_user data t = (t ++ [like], Ret (LikeDict like, 201)) ∧
      unlike_content current_user (like_id like) (t ++ [like])
      = (t, (LikeMessage "Content unliked", 200))
  | None => like_content current_user data t = (t, Raise (KeyError "content_id"))
  end.
Proof.
  unfold like_content, getitem.
  destruct (data !! "content_id") as [c|]; [|done]. simpl. split; [done|].
  unfold unlike_content.
  assert (Forall (λ l, ¬ (like_id l = next_id (like_id <$> t) ∧
                          like_user_id l = current_user)) t) as Hfresh0.
  { apply Forall_forall. intros l Hl [Hk _].
    apply (next_id_fresh (like_id <$> t)). rewrite <- Hk.
    by apply list_elem_of_fmap_2. }
  pose proof (proj2 (head_filter_None _ t) Hfresh0) as Hfresh.
  assert (filter (λ l, like_id l = next_id (like_id <$> t) ∧
                       like_user_id l = current_user) t = []) as E.
  { by destruct (filter _ t). }
  rewrite filter_app, E, filter_cons, decide_True by done. simpl.
  by rewrite delete_like_last by apply next_id_fresh.
Qed.

(** ** More on the chat routes *)

Lemma with_conversation_frame (a b : Z) (w : World) :
  messages (with_conversation a b w) = messages w ∧
  users (with_conversation a b w) = users w ∧
  comments (with_conversation a b w) = comments w ∧
  clients (with_conversation a b w) = clients w ∧
  outbox (with_conversation a b w) = outbox w.
Proof.
  unfold with_conversation. by destruct (conversation_first _ _ w).
Qed.

Lemma with_conversation_prefix (a b : Z) (w : World) :
  conversations w `prefix_of` conversations (with_conversation a b w).
Proof.
  destruct (conversations_with a b w) as [->|[_ ->]]; [done|].
  by apply prefix_app_r.
Qed.

(** What one request does to the tables. *)
Lemma step_shape (w : World) (r : request) :
  conversations w `prefix_of` conversations (step w r) ∧
  (messages (step w r) = messages w ∨
   ∃ a b v now,
     messages (step w r)
     = messages w ++ [mkMessage (next_id (msg_id <$> messages w))
                                (conv_id (canonical_conversation a b w)) a b v now] ∧
     canonical_conversation a b w ∈ conversations (step w r)) ∧
  users (step w r) = users w ∧
  comments (step w r) = comments w ∧
  clients (step w r) = clients w ∧
  outbox (step w r) = outbox w.
Proof.
  unfold step, dispatch. destruct r as [u | method a b data now]; simpl.
  - split_and!; try done. by left.
  - destruct method.
    + rewrite handle_chat_GET. simpl. split_and!; try done. by left.
    + pose proof (with_conversation_frame a b w) as (Hm & Hu & Hc & Hcl & Ho).
      pose proof (with_conversation_prefix a b w) as Hp.
      destruct (data !! "content") as [v|] eqn:Hd.
      * rewrite (handle_chat_POST_content _ _ _ _ _ v Hd). simpl.
        split_and!; try done. right. exists a, b, v, now. rewrite Hm.
        split; [done|]. apply canonical_conversation_elem.
      * rewrite (handle_chat_POST_no_content _ _ _ _ _ Hd). simpl.
        split_and!; try done. by left.
Qed.

Lemma run_snoc (rs : list request) (r : request) (w : World) :
  run (rs ++ [r]) w = step (run rs w) r.
Proof. unfold run. by rewrite foldl_app. Qed.

(** X6. Chat rows are only ever appended: over any run of chat requests
    the conversation table and the message table of the start are prefixes
    of the tables of the end; no row is changed or removed. *)
Theorem chat_tables_append_only (rs : list request) (w : World) :
  conversations w `prefix_of` conversations (run rs w) ∧
  messages w `prefix_of` messages (run rs w).
Proof.
  induction rs as [|r rs IH] using rev_ind; [done|].
  rewrite run_snoc. destruct IH as [IHc IHm].
  destruct (step_shape (run rs w) r) as (Hc & Hm & _). split.
  - by etrans.
  - destruct Hm as [->|(a & b & v & now & -> & _)]; [done|].
    by apply prefix_app_r.
Qed.

(** X7. A run of chat requests leaves users, comments and the connected
    clients as they were, and delivers no event to any client. *)
Theorem chat_run_frame (rs : list request) (w : World) :
  users (run rs w) = users w ∧
  comments (run rs w) = comments w ∧
  clients (run rs w) = clients w ∧
  outbox (run rs w) = outbox w.
Proof.
  induction rs as [|r rs IH] using rev_ind; [done|].
  rewrite run_snoc. destruct IH as (IHu & IHc & IHcl & IHo).
  destruct (step_shape (run rs w) r) as (_ & _ & Hu & Hc & Hcl & Ho).
  split_and!; congruence.
Qed.

Lemma message_placed_mono (w w' : World) (m : Message) :
  conversations w `prefix_of` conversations w' →
  message_placed w m → message_placed w' m.
Proof.
  intros [k Hk] (c & Hc & H). exists c. split; [|done].
  rewrite Hk. apply elem_of_app. by left.
Qed.

Lemma messages_placed_step (w : World) (r : request) :
  Forall (message_placed w) (messages w) →
  Forall (message_placed (step w r)) (messages (step w r)).
Proof.
  intros Hw. destruct (step_shape w r) as (Hp & Hm & _).
  assert (Forall (message_placed (step w r)) (messages w)) as Hold.
  { eapply Forall_impl; [exact Hw|]. intros m. by apply message_placed_mono. }
  destruct Hm as [->|(a & b & v & now & -> & Hin)]; [done|].
  apply Forall_app. split; [done|]. constructor; [|constructor].
  exists (canonical_conversation a b w). simpl.
  pose proof (canonical_conversation_pair a b w) as [H1 H2]. done.
Qed.

(** X8. Every stored message lies in the conversation of its own sender
    and recipient: if that holds at the start it holds after any run of
    chat requests, so no request files a message under another pair. *)
Theorem messages_stay_with_their_pair (rs : list request) (w : World) :
  Forall (message_placed w) (messages w) →
  Forall (message_placed (run rs w)) (messages (run rs w)).
Proof.
  intros Hw. induction rs as [|r rs IH] using rev_ind; [done|].
  rewrite run_snoc. by apply messages_placed_step.
Qed.

Lemma messages_stay_with_their_pair_witness :
  Forall (message_placed (run sample_requests sample_world))
         (messages (run sample_requests sample_world)).
Proof.
  apply messages_stay_with_their_pair.
  constructor; [|constructor].
  exists (mkConversation 1 1 2). split_and!; try reflexivity.
  by_evaluation.
Defined.

Lemma chat_keys_ok_step (w : World) (r : request) :
  chat_keys_ok w → chat_keys_ok (step w r).
Proof.
  intros [Hc Hm]. split.
  - destruct (conversations_step w r) as [->|(a & b & _ & ->)]; [done|].
    rewrite fmap_app. apply NoDup_app.
    split_and!; [done | | apply NoDup_singleton].
    intros i Hi Hi'. apply list_elem_of_singleton in Hi'. subst i.
    by apply next_id_fresh in Hi.
  - destruct (step_shape w r) as (_ & [->|(a & b & v & now & -> & _)] & _); [done|].
    rewrite fmap_app. apply NoDup_app.
    split_and!; [done | | apply NoDup_singleton].
    intros i Hi Hi'. apply list_elem_of_singleton in Hi'. subst i.
    by apply next_id_fresh in Hi.
Qed.

(** X9. Keys are never reused: from tables with distinct conversation keys
    and distinct message keys, every run of chat requests ends in tables
    with distinct keys. *)
Theorem chat_keys_stay_distinct (rs : list request) (w : World) :
  chat_keys_ok w → chat_keys_ok (run rs w).
Proof.
  intros Hw. induction rs as [|r rs IH] using rev_ind; [done|].
  rewrite run_snoc. by apply chat_keys_ok_step.
Qed.

Lemma chat_keys_stay_distinct_witness :
  chat_keys_ok (run sample_requests sample_world).
Proof.
  apply chat_keys_stay_distinct. split; by_evaluation.
Defined.

Lemma conv_id_inj_on (w : World) (c c' : Conversation) :
  NoDup (conv_id <$> conversations w) →
  c ∈ conversations w → c' ∈ conversations w → conv_id c = conv_id c' → c = c'.
Proof.
  intros Hnd [i Hi]%list_elem_of_lookup [j Hj]%list_elem_of_lookup Heq.
  assert (i = j) as ->; [|congruence].
  eapply NoDup_lookup; [exact Hnd | |].
  - rewrite list_lookup_fmap, Hi. reflexivity.
  - rewrite list_lookup_fmap, Hj. simpl. by rewrite Heq.
Qed.

Lemma conversation_first_other (a b c d : Z) (w : World) :
  (Z.min c d, Z.max c d) ≠ (Z.min a b, Z.max a b) →
  conversation_first (Z.min c d) (Z.max c d) (with_conversation a b w)
  = conversation_first (Z.min c d) (Z.max c d) w.
Proof.
  intros Hne. destruct (conversations_with a b w) as [E|[_ E]];
    unfold conversation_first; rewrite E; [done|].
  rewrite filter_app, filter_cons, decide_False, filter_nil, app_nil_r; [done|].
  simpl. intros [H1 H2]. apply Hne. congruence.
Qed.

(** X10. A post between A and B does not show in the listing of any other
    pair: in tables with distinct conversation keys whose messages all
    belong to stored conversations, the messages a GET returns for a pair
    other than {A,B} are the same before and after the post, whatever its
    body. *)
Theorem post_leaves_other_pairs (w : World) (A B C D : Z)
    (data : gmap string pyval) (now : Z) :
  messages_ok w →
  NoDup (conv_id <$> conversations w) →
  (Z.min C D, Z.max C D) ≠ (Z.min A B, Z.max A B) →
  ∀ d t,
    (dispatch (handle_chat GET C D d t) (step w (HandleChat POST A B data now))).2
    = (dispatch (handle_chat GET C D d t) w).2.
Proof.
  intros Hok Hnd Hne d t. unfold dispatch. rewrite !handle_chat_GET. simpl.
  do 2 f_equal.
  assert (chat_keys_ok_convs :
            NoDup (conv_id <$> conversations (with_conversation A B w))).
  { destruct (conversations_with A B w) as [->|[_ ->]]; [done|].
    rewrite fmap_app. apply NoDup_app.
    split_and!; [done | | apply NoDup_singleton].
    intros i Hi Hi'. apply list_elem_of_singleton in Hi'. subst i.
    by apply next_id_fresh in Hi. }
  assert (Hl : list_messages C D (with_conversation A B w) = list_messages C D w).
  { unfold list_messages. rewrite conversation_first_other by done.
    destruct (conversation_first _ _ w); [|done].
    unfold messages_of.
    by rewrite (proj1 (with_conversation_frame A B w)). }
  unfold step, dispatch, view_of.
  destruct (data !! "content") as [v|] eqn:Hd.
  - rewrite (handle_chat_POST_content _ _ _ _ _ v Hd). simpl.
    rewrite <- Hl. unfold list_messages.
    change (conversation_first ?x ?y (set_messages _ ?w'))
      with (conversation_first x y w').
    destruct (conversation_first _ _ (with_conversation A B w)) as [c|] eqn:E;
      [|done].
    unfold messages_of. simpl.
    rewrite filter_app, filter_cons, decide_False, filter_nil, app_nil_r; [done|].
    simpl. intros Heq.
    unfold conversation_first in E.
    apply head_Some_elem_of, list_elem_of_filter in E as [[E1 E2] Hc].
    pose proof (canonical_conversation_elem A B w) as Hk.
    pose proof (canonical_conversation_pair A B w) as [K1 K2].
    assert (canonical_conversation A B w = c) as <-.
    { by apply (conv_id_inj_on (with_conversation A B w)). }
    apply Hne. congruence.
  - rewrite (handle_chat_POST_no_content _ _ _ _ _ Hd). simpl. by rewrite Hl.
Qed.

Lemma post_leaves_other_pairs_witness :
  (dispatch (handle_chat GET 1 2 ∅ 0) (step sample_world (HandleChat POST 3 1 hello 9))).2
  = (JContents [PStr "hello"], 200).
Proof.
  assert (H1 : messages_ok sample_world).
  { unfold messages_ok. by_evaluation. }
  assert (H2 : NoDup (conv_id <$> conversations sample_world)) by by_evaluation.
  assert (H3 : (Z.min 1 2, Z.max 1 2) ≠ (Z.min 3 1, Z.max 3 1)) by discriminate.
  exact (post_leaves_other_pairs sample_world 3 1 1 2 hello 9 H1 H2 H3 ∅ 0).
Defined.

Lemma get_all_chats_eq (u : Z) (w : World) :
  dispatch (get_all_chats u) w = (w, (JIds (chats_of u w), 200)).
Proof. reflexivity. Qed.

(** X11. After a post from A to B, whatever its body, [get_all_chats]
    lists their conversation for A and for B, lists for every other user
    what it listed before, and changes nothing itself. *)
Theorem post_shows_in_both_chat_lists (w : World) (A B : Z)
    (data : gmap string pyval) (now : Z) :
  let w' := step w (HandleChat POST A B data now) in
  (∀ u, ∃ ids, dispatch (get_all_chats u) w' = (w', (JIds ids, 200)) ∧
               ((u = A ∨ u = B) → conv_id (canonical_conversation A B w) ∈ ids) ∧
               (u ≠ A → u ≠ B →
                dispatch (get_all_chats u) w = (w, (JIds ids, 200)))).
Proof.
  intros w' u. exists (chats_of u w'). rewrite !get_all_chats_eq.
  assert (Hc : conversations w' = conversations (with_conversation A B w)).
  { subst w'. unfold step, dispatch, view_of.
    pose proof (conversations_handle_chat POST A B data now w) as H.
    by destruct (handle_chat POST A B data now w) as [? [?|?]]. }
  split_and!; [done | |].
  - intros Hu. unfold chats_of. rewrite Hc.
    apply list_elem_of_fmap_2, list_elem_of_filter.
    split; [|apply canonical_conversation_elem].
    pose proof (canonical_conversation_pair A B w) as [-> ->]. lia.
  - intros HA HB. do 3 f_equal. unfold chats_of. rewrite Hc.
    destruct (conversations_with A B w) as [->|[_ ->]]; [done|].
    rewrite filter_app, filter_cons, decide_False, filter_nil, app_nil_r; [done|].
    simpl. lia.
Qed.

Lemma post_shows_in_both_chat_lists_witness :
  ∃ ids,
    dispatch (get_all_chats 3) (step sample_world (HandleChat POST 2 4 hello 9))
    = (step sample_world (HandleChat POST 2 4 hello 9), (JIds ids, 200)) ∧
    dispatch (get_all_chats 3) sample_world = (sample_world, (JIds ids, 200)).
Proof.
  destruct (post_shows_in_both_chat_lists sample_world 2 4 hello 9 3)
    as (ids & H1 & _ & H3).
  exists ids. split; [exact H1 | apply H3; lia].
Defined.

(** ** More on the comment tree *)

Lemma mapM_result_raise {A B} (f : A → result B) (l : list A) (x : A) (e : exn) :
  x ∈ l → f x = Raise e → ∃ e', mapM f l = Raise e'.
Proof.
  intros Hx Hf. induction Hx as [x l | x y l _ IH].
  - rewrite mapM_result_cons, Hf. by eexists.
  - rewrite mapM_result_cons. destruct (f y) as [b|e0]; simpl; [|by eexists].
    destruct (IH Hf) as [e' ->]. by eexists.
Qed.

Lemma mapM_result_mono {A B} (f g : A → result B) (l : list A) (ys : list B) :
  (∀ x y, x ∈ l → f x = Ret y → g x = Ret y) →
  mapM f l = Ret ys → mapM g l = Ret ys.
Proof.
  revert ys. induction l as [|x l IH]; intros ys Hfg; [done|].
  rewrite !mapM_result_cons.
  destruct (f x) as [y|e] eqn:Hfx; simpl; [|done].
  rewrite (Hfg x y) by (done || by left). simpl.
  destruct (mapM f l) as [k|e] eqn:Hk; simpl; [|done].
  rewrite (IH k); [done | | done].
  intros x' y' Hx'. apply Hfg. by right.
Qed.

Lemma build_comment_tree_mono (w : World) (depth : nat) :
  ∀ (c : Comment) (n : Node),
    build_comment_tree depth w c = Ret n →
    build_comment_tree (S depth) w c = Ret n.
Proof.
  induction depth as [|depth IH]; intros c n; [done|].
  rewrite (build_comment_tree_S (S depth)), (build_comment_tree_S depth).
  destruct (comment_username w c) as [u|e]; simpl; [|done].
  destruct (mapM (build_comment_tree depth w) (comment_replies w c))
    as [kids|e] eqn:Hk; simpl; [|done].
  intros Hn. erewrite mapM_result_mono; [exact Hn | | exact Hk].
  intros x y _. apply IH.
Qed.

Lemma build_comment_tree_mono_le (w : World) (d d' : nat) (c : Comment) (n : Node) :
  (d ≤ d')%nat →
  build_comment_tree d w c = Ret n → build_comment_tree d' w c = Ret n.
Proof.
  induction 1 as [|d' _ IH]; [done|].
  intros Hn. by apply build_comment_tree_mono, IH.
Qed.

(** X12. More depth never changes an answer: once [get_threaded_comments]
    answers a content with trees at some nesting depth, it gives the same
    answer at every larger depth. *)
Theorem threaded_comments_depth_stable (w : World) (k : Z) (d d' : nat)
    (trees : list Node) :
  (d ≤ d')%nat →
  dispatch (get_threaded_comments d k) w = (w, (JTree trees, 200)) →
  dispatch (get_threaded_comments d' k) w = (w, (JTree trees, 200)).
Proof.
  intros Hd. unfold dispatch, get_threaded_comments, mbind, M_bind, gets, reads.
  destruct (mapM (build_comment_tree d w) (top_level k w)) as [ts|e] eqn:E;
    simpl; [|done].
  intros [= <-].
  erewrite mapM_result_mono; [done | | exact E].
  intros x y _. by apply build_comment_tree_mono_le.
Qed.

Lemma threaded_comments_depth_stable_witness :
  dispatch (get_threaded_comments 1000 1) sample_chain
  = (sample_chain,
     (JTree [mkNode 10 "ann" "first" 100
               [mkNode 11 "bob" "second" 101
                  [mkNode 12 "ann" "third" 102 []]]], 200)).
Proof.
  apply (threaded_comments_depth_stable sample_chain 1 3 1000); [lia | reflexivity].
Defined.

Lemma build_fails_up (w : World) (c x : Comment) :
  descends w c x →
  (∀ d, ∃ e, build_comment_tree d w x = Raise e) →
  ∀ d, ∃ e, build_comment_tree d w c = Raise e.
Proof.
  induction 1 as [c | c r x Hr _ IH]; [done|].
  intros Hx [|d]; [by eexists|].
  rewrite build_comment_tree_S.
  destruct (comment_username w c) as [u|e]; simpl; [|by eexists].
  destruct (IH Hx d) as [e He].
  destruct (mapM_result_raise _ _ r e Hr He) as [e' ->]. by eexists.
Qed.

Lemma threaded_comments_fail (w : World) (k : Z) (c x : Comment) (depth : nat) :
  c ∈ top_level k w → descends w c x →
  (∀ d, ∃ e, build_comment_tree d w x = Raise e) →
  ∃ e, dispatch (get_threaded_comments depth k) w = (w, (JError (str_exn e), 500)).
Proof.
  intros Hc Hdesc Hx.
  destruct (build_fails_up w c x Hdesc Hx depth) as [e He].
  destruct (mapM_result_raise _ _ c e Hc He) as [e' He'].
  exists e'. unfold dispatch, get_threaded_comments, mbind, M_bind, gets, reads.
  by rewrite He'.
Qed.

(** X13. One comment without its author breaks the whole listing: when a
    comment anywhere in a thread of the content has no user row,
    [get_threaded_comments] answers 500 at every nesting depth and never a
    partial tree. *)
Theorem orphan_comment_fails (w : World) (k : Z) (c x : Comment) (depth : nat) :
  c ∈ top_level k w → descends w c x →
  user_get (comment_user_id x) w = None →
  ∃ e, dispatch (get_threaded_comments depth k) w = (w, (JError (str_exn e), 500)).
Proof.
  intros Hc Hdesc Hx. apply (threaded_comments_fail w k c x); [done..|].
  intros [|d]; [by eexists|].
  rewrite build_comment_tree_S. unfold comment_username. rewrite Hx. by eexists.
Qed.

Lemma orphan_comment_fails_witness :
  ∃ e, dispatch (get_threaded_comments 50 1) sample_orphan
       = (sample_orphan, (JError (str_exn e), 500)).
Proof.
  apply (orphan_comment_fails sample_orphan 1
           (mkComment 10 1 1 "first" 100 None)
           (mkComment 11 1 9 "second" 101 (Some 10))).
  - by_evaluation.
  - eapply descends_reply; [|apply descends_here]. by_evaluation.
  - reflexivity.
Defined.

Lemma comment_id_inj_on (w : World) (c c' : Comment) :
  NoDup (comment_id <$> comments w) →
  c ∈ comments w → c' ∈ comments w → comment_id c = comment_id c' → c = c'.
Proof.
  intros Hnd [i Hi]%list_elem_of_lookup [j Hj]%list_elem_of_lookup Heq.
  assert (i = j) as ->; [|congruence].
  eapply NoDup_lookup; [exact Hnd | |].
  - rewrite list_lookup_fmap, Hi. reflexivity.
  - rewrite list_lookup_fmap, Hj. simpl. by rewrite Heq.
Qed.

Lemma comment_replies_spec (w : World) (x r : Comment) :
  r ∈ comment_replies w x ↔
  parent_comment_id r = Some (comment_id x) ∧ r ∈ comments w.
Proof.
  unfold comment_replies.
  apply (list_elem_of_filter (λ c, parent_comment_id c = Some (comment_id x))).
Qed.

Lemma thread_path_elem (w : World) (l : list Comment) :
  thread_path w l → ∀ y, y ∈ l → y ∈ comments w.
Proof.
  induction 1 as [c Hc _ | r x p _ IH Hr]; intros y Hy.
  - apply list_elem_of_singleton in Hy. by subst.
  - apply elem_of_cons in Hy as [->|Hy]; [|by apply IH].
    by apply comment_replies_spec in Hr as [_ Hr].
Qed.

Lemma thread_path_suffix (w : World) (l1 l2 : list Comment) (y : Comment) :
  thread_path w (l1 ++ y :: l2) → thread_path w (y :: l2).
Proof.
  induction l1 as [|a l1 IH]; [done|]. simpl. intros Hp. apply IH.
  inversion Hp as [c Hc Hroot Heq | r x p Hp' Hr [Hr' Heq]].
  - by destruct l1.
  - exact Hp'.
Qed.

Lemma thread_path_unique (w : World) (x : Comment) (p p' : list Comment) :
  NoDup (comment_id <$> comments w) →
  thread_path w (x :: p) → thread_path w (x :: p') → p = p'.
Proof.
  intros Hnd. revert x p'. induction p as [|y p IH]; intros x p' Hp Hp'.
  - inversion Hp as [c Hc Hroot|]; subst.
    inversion Hp' as [|r x' q Hq Hr]; subst; [done|].
    apply comment_replies_spec in Hr as [Hr _]. congruence.
  - inversion Hp as [|r x' q Hq Hr]; subst.
    apply comment_replies_spec in Hr as [Hr Hx].
    inversion Hp' as [c Hc Hroot | r x' q' Hq' Hr']; subst; [congruence|].
    apply comment_replies_spec in Hr' as [Hr' _].
    assert (y = x') as <-.
    { apply (comment_id_inj_on w); [done | | | congruence].
      - apply (thread_path_elem w _ Hq). by left.
      - apply (thread_path_elem w _ Hq'). by left. }
    f_equal. by apply (IH y).
Qed.

Lemma thread_path_NoDup (w : World) (l : list Comment) :
  NoDup (comment_id <$> comments w) → thread_path w l → NoDup l.
Proof.
  intros Hnd. induction 1 as [c Hc _ | r x p Hp IH Hr].
  - apply NoDup_singleton.
  - constructor; [|done]. intros Hin.
    apply list_elem_of_split in Hin as (l1 & l2 & Heq).
    assert (thread_path w (r :: l2)) as Hp2.
    { apply (thread_path_suffix w l1). by rewrite <- Heq. }
    pose proof (thread_path_unique w r (x :: p) l2 Hnd
                  (thread_path_reply w r x p Hp Hr) Hp2) as Hl.
    rewrite Hl in Heq. apply (f_equal length) in Heq.
    rewrite length_app in Heq. simpl in Heq. lia.
Qed.

Lemma thread_path_length (w : World) (l : list Comment) :
  NoDup (comment_id <$> comments w) → thread_path w l →
  (length l ≤ length (comments w))%nat.
Proof.
  intros Hnd Hp. apply submseteq_length, NoDup_submseteq.
  - by apply (thread_path_NoDup w).
  - by apply thread_path_elem.
Qed.

(** With distinct keys, a depth of the size of the table is enough below
    any path of replies. *)
Lemma build_comment_tree_on_path (w : World) :
  NoDup (comment_id <$> comments w) → authors_exist w →
  ∀ (depth : nat) (x : Comment) (p : list Comment),
    thread_path w (x :: p) →
    (length (comments w) < length (x :: p) + depth)%nat →
    ∃ n, build_comment_tree depth w x = Ret n ∧ tree_of w x n.
Proof.
  intros Hnd Hauth. unfold authors_exist in Hauth. rewrite Forall_forall in Hauth.
  induction depth as [|depth IH]; intros x p Hp Hd.
  - pose proof (thread_path_length w _ Hnd Hp). lia.
  - destruct (Hauth x) as [u Hu].
    { apply (thread_path_elem w _ Hp). by left. }
    destruct (mapM_result_Forall2 (build_comment_tree depth w) (tree_of w)
                (comment_replies w x)) as (kids & Hkids & Hrel).
    { apply Forall_forall. intros r Hr.
      apply (IH r (x :: p)); [by constructor|]. simpl in *. lia. }
    exists (mkNode (comment_id x) (username u) (body x) (created_at x) kids).
    split; [|by econstructor].
    rewrite build_comment_tree_S. unfold comment_username. rewrite Hu. simpl.
    rewrite Hkids. reflexivity.
Qed.

(** X14. Cycles among the parent links cannot hang the reader: when the
    comment keys are distinct and authors exist, [get_threaded_comments]
    answers every content with the trees of its top-level comments as soon
    as the nesting depth reaches the number of comments in the table,
    whatever the parent links are. *)
Theorem threaded_comments_terminate (w : World) (k : Z) (depth : nat) :
  NoDup (comment_id <$> comments w) → authors_exist w →
  (length (comments w) ≤ depth)%nat →
  ∃ trees,
    dispatch (get_threaded_comments depth k) w = (w, (JTree trees, 200)) ∧
    Forall2 (tree_of w) (top_level k w) trees.
Proof.
  intros Hnd Hauth Hd.
  destruct (mapM_result_Forall2 (build_comment_tree depth w) (tree_of w)
              (top_level k w)) as (trees & Htrees & Hrel).
  { apply Forall_forall. intros c Hc.
    apply (list_elem_of_filter (λ c, comment_content_id c = k ∧ parent_comment_id c = None))
      in Hc as [[_ Hroot] Hc].
    apply (build_comment_tree_on_path w Hnd Hauth depth c []).
    - by constructor.
    - simpl. lia. }
  exists trees. split; [|done].
  unfold dispatch, get_threaded_comments, mbind, M_bind, gets, reads.
  by rewrite Htrees.
Qed.

Lemma threaded_comments_terminate_witness :
  ∃ trees,
    dispatch (get_threaded_comments 4 1) sample_loop = (sample_loop, (JTree trees, 200)) ∧
    Forall2 (tree_of sample_loop) (top_level 1 sample_loop) trees.
Proof.
  apply threaded_comments_terminate.
  - by_evaluation.
  - unfold authors_exist. simpl. repeat constructor; simpl; eexists; reflexivity.
  - simpl. lia.
Defined.

(** ** Profiles *)

Lemma head_filter_Some_split {A} (P : A → Prop) `{∀ x, Decision (P x)}
    (l : list A) (x : A) :
  head (filter P l) = Some x →
  ∃ l1 l2, l = l1 ++ x :: l2 ∧ Forall (λ y, ¬ P y) l1 ∧ P x.
Proof.
  induction l as [|a l IH]; [done|].
  rewrite filter_cons. destruct (decide (P a)) as [Ha|Ha]; simpl.
  - intros [= ->]. exists [], l. by repeat split.
  - intros (l1 & l2 & -> & Hl1 & Hx)%IH. exists (a :: l1), l2.
    repeat split; [|done]. by constructor.
Qed.

Lemma filter_Forall_id {A} (P : A → Prop) `{∀ x, Decision (P x)} (l : list A) :
  Forall P l → filter P l = l.
Proof.
  induction 1 as [|x l Hx _ IH]; [done|].
  by rewrite filter_cons, decide_True, IH.
Qed.

Lemma filter_Forall_nil {A} (P : A → Prop) `{∀ x, Decision (P x)} (l : list A) :
  Forall (λ x, ¬ P x) l → filter P l = [].
Proof.
  induction 1 as [|x l Hx _ IH]; [done|].
  by rewrite filter_cons, decide_False, IH.
Qed.

(** Where the profile of a user stands in a table with one profile per
    user and distinct keys. *)
Lemma profile_first_split (u : Z) (t : list ProfileRow) (p : ProfileRow) :
  profiles_ok t → profile_first u t = Some p →
  ∃ l1 l2, t = l1 ++ p :: l2 ∧ pr_user_id p = u ∧
           Forall (λ r, pr_user_id r ≠ u ∧ pr_id r ≠ pr_id p) (l1 ++ l2).
Proof.
  intros [Hu Hi] (l1 & l2 & -> & Hl1 & Hp)%head_filter_Some_split.
  exists l1, l2. split_and!; [done..|].
  rewrite !fmap_app, !fmap_cons in Hu, Hi.
  apply NoDup_app in Hu as (_ & Hu1 & [Hu2 _]%NoDup_cons).
  apply NoDup_app in Hi as (_ & Hi1 & [Hi2 _]%NoDup_cons).
  apply Forall_forall. intros r [Hr|Hr]%elem_of_app; split.
  - rewrite Forall_forall in Hl1. by apply Hl1.
  - intros Heq. apply (Hi1 (pr_id r)); [by apply list_elem_of_fmap_2|].
    rewrite Heq. by left.
  - intros Heq. apply Hu2. rewrite Hp, <- Heq. by apply list_elem_of_fmap_2.
  - intros Heq. apply Hi2. rewrite <- Heq. by apply list_elem_of_fmap_2.
Qed.

Lemma update_profile_split (u : Z) (data : gmap string pyval)
    (l1 l2 : list ProfileRow) (p : ProfileRow) :
  profile_first u (l1 ++ p :: l2) = Some p →
  Forall (λ r, pr_user_id r ≠ u ∧ pr_id r ≠ pr_id p) (l1 ++ l2) →
  update_profile u data (l1 ++ p :: l2)
  = (l1 ++ mkProfileRow (pr_id p) (pr_user_id p)
                        (dict_get data "bio" (pr_bio p))
                        (dict_get data "profile_picture" (pr_picture p))
                        (dict_get data "website" (pr_website p)) :: l2,
     (ProfileDict (mkProfileRow (pr_id p) (pr_user_id p)
                                (dict_get data "bio" (pr_bio p))
                                (dict_get data "profile_picture" (pr_picture p))
                                (dict_get data "website" (pr_website p))), 200)).
Proof.
  intros E Hall. unfold update_profile. rewrite E. f_equal.
  apply Forall_app in Hall as [H1 H2].
  rewrite fmap_app, fmap_cons, decide_True by done.
  assert (∀ l, Forall (λ r, pr_user_id r ≠ u ∧ pr_id r ≠ pr_id p) l →
               (λ r, if decide (pr_id r = pr_id p)
                     then mkProfileRow (pr_id p) (pr_user_id p)
                            (dict_get data "bio" (pr_bio p))
                            (dict_get data "profile_picture" (pr_picture p))
                            (dict_get data "website" (pr_website p))
                     else r) <$> l = l) as Hid.
  { induction 1 as [|r l [_ Hr] _ IH]; [done|].
    by rewrite fmap_cons, decide_False, IH. }
  by rewrite !Hid.
Qed.

Lemma delete_profile_split (u : Z) (l1 l2 : list ProfileRow) (p : ProfileRow) :
  profile_first u (l1 ++ p :: l2) = Some p →
  Forall (λ r, pr_user_id r ≠ u ∧ pr_id r ≠ pr_id p) (l1 ++ l2) →
  delete_profile u (l1 ++ p :: l2)
  = (l1 ++ l2, (ProfileMessage "Profile deleted", 200)).
Proof.
  intros E Hall. unfold delete_profile. rewrite E. f_equal.
  rewrite filter_app, filter_cons, decide_False by (intros Hne; by apply Hne).
  rewrite <- filter_app. apply filter_Forall_id.
  eapply Forall_impl; [exact Hall|]. by intros r [_ Hr].
Qed.

Lemma profiles_ok_step (t : list ProfileRow) (r : profile_request) :
  profiles_ok t → profiles_ok (profile_step t r).
Proof.
  intros Hok. destruct r as [u | u d | u d | u]; simpl.
  - unfold get_profile. by destruct (profile_first u t).
  - unfold create_profile. destruct (profile_first u t) eqn:E; [done|].
    simpl. destruct Hok as [Hu Hi]. split; rewrite fmap_app; apply NoDup_app;
      (split_and!; [done | | apply NoDup_singleton]);
      intros i Hi1 Hi2; apply list_elem_of_singleton in Hi2; subst i.
    + apply list_elem_of_fmap in Hi1 as (x & Hx & Hin).
      unfold profile_first in E. rewrite head_filter_None, Forall_forall in E.
      by apply (E x Hin).
    + by apply next_id_fresh in Hi1.
  - destruct (profile_first u t) as [p|] eqn:E.
    + destruct (profile_first_split u t p Hok E) as (l1 & l2 & -> & Hp & Hall).
      rewrite update_profile_split by done. simpl.
      unfold profiles_ok in *. by rewrite !fmap_app, !fmap_cons in *.
    + unfold update_profile. by rewrite E.
  - unfold delete_profile. destruct (profile_first u t) as [p|]; [|done].
    simpl. destruct Hok. split; by apply NoDup_fmap_filter.
Qed.

(** X15. Over any sequence of profile requests (get, create, update,
    delete, by any users), a table with at most one profile per user and
    distinct keys stays so. *)
Theorem one_profile_per_user (rs : list profile_request) (t : list ProfileRow) :
  profiles_ok t → profiles_ok (profile_run rs t).
Proof.
  revert t. induction rs as [|r rs IH]; intros t Hok; [done|].
  simpl. by apply IH, profiles_ok_step.
Qed.

Lemma one_profile_per_user_witness :
  profiles_ok (profile_run [CreateProfile 1 new_bio; CreateProfile 2 ∅;
                            UpdateProfile 3 new_bio; DeleteProfile 1;
                            CreateProfile 1 ∅] sample_profiles).
Proof.
  apply one_profile_per_user. split; by_evaluation.
Defined.

(** X16. Create, then read: for a user without a profile, [create_profile]
    answers 201 with a row holding the body's ['bio'], ['profile_picture']
    and ['website'] (null where the body has none), [get_profile] then
    answers 200 with that row, and a second [create_profile] is refused
    with 400 and changes nothing. *)
Theorem create_profile_then_get (u : Z) (data data' : gmap string pyval)
    (t : list ProfileRow) :
  profile_first u t = None →
  let p := mkProfileRow (next_id (pr_id <$> t)) u
                        (dict_get data "bio" PNone)
                        (dict_get data "profile_picture" PNone)
                        (dict_get data "website" PNone) in
  create_profile u data t = (t ++ [p], (ProfileDict p, 201)) ∧
  get_profile u (t ++ [p]) = (t ++ [p], (ProfileDict p, 200)) ∧
  create_profile u data' (t ++ [p])
  = (t ++ [p], (ProfileMessage "Profile already exists", 400)).
Proof.
  intros E p.
  assert (profile_first u (t ++ [p]) = Some p) as E'.
  { unfold profile_first in *. rewrite head_filter_app_None by done.
    by rewrite filter_cons, decide_True. }
  unfold create_profile, get_profile. by rewrite E, E'.
Qed.

Lemma create_profile_then_get_witness :
  get_profile 2 (sample_profiles ++ [mkProfileRow 3 2 (PStr "new") PNone PNone])
  = (sample_profiles ++ [mkProfileRow 3 2 (PStr "new") PNone PNone],
     (ProfileDict (mkProfileRow 3 2 (PStr "new") PNone PNone), 200)).
Proof.
  exact (proj1 (proj2 (create_profile_then_get 2 new_bio ∅ sample_profiles eq_refl))).
Defined.

(** X17. [update_profile] overwrites exactly the fields the body carries:
    in a table with one profile per user and distinct keys, the caller's
    row keeps its key, its user and every field absent from the body, takes
    the body's value for every field present, stays where it stood, and all
    other rows are untouched; [get_profile] then answers with the new
    row. *)
Theorem update_profile_fields (u : Z) (data : gmap string pyval)
    (t : list ProfileRow) (p : ProfileRow) :
  profiles_ok t → profile_first u t = Some p →
  let p' := mkProfileRow (pr_id p) (pr_user_id p)
                         (dict_get data "bio" (pr_bio p))
                         (dict_get data "profile_picture" (pr_picture p))
                         (dict_get data "website" (pr_website p)) in
  ∃ l1 l2,
    t = l1 ++ p :: l2 ∧
    update_profile u data t = (l1 ++ p' :: l2, (ProfileDict p', 200)) ∧
    get_profile u (l1 ++ p' :: l2) = (l1 ++ p' :: l2, (ProfileDict p', 200)) ∧
    (data !! "bio" = None → data !! "profile_picture" = None →
     data !! "website" = None → l1 ++ p' :: l2 = t).
Proof.
  intros Hok E p'.
  destruct (profile_first_split u t p Hok E) as (l1 & l2 & -> & Hp & Hall).
  exists l1, l2. split_and!; [done | | |].
  - by apply update_profile_split.
  - unfold get_profile, profile_first.
    apply Forall_app in Hall as [H1 H2].
    rewrite filter_app, filter_Forall_nil, filter_cons, decide_True; [done..|].
    eapply Forall_impl; [exact H1|]. by intros r [Hr _].
  - intros Hb Hpic Hweb. subst p'. unfold dict_get. rewrite Hb, Hpic, Hweb.
    simpl. by destruct p.
Qed.

Lemma update_profile_fields_witness :
  ∃ l1 l2,
    sample_profiles = l1 ++ mkProfileRow 1 1 (PStr "hi") PNone (PStr "a.example") :: l2 ∧
    update_profile 1 new_bio sample_profiles
    = (l1 ++ mkProfileRow 1 1 (PStr "new") PNone (PStr "a.example") :: l2,
       (ProfileDict (mkProfileRow 1 1 (PStr "new") PNone (PStr "a.example")), 200)).
Proof.
  assert (H : profiles_ok sample_profiles) by (split; by_evaluation).
  destruct (update_profile_fields 1 new_bio sample_profiles
              (mkProfileRow 1 1 (PStr "hi") PNone (PStr "a.example")) H eq_refl)
    as (l1 & l2 & Ht & Hu & _).
  exists l1, l2. by split.
Defined.

(** X18. Delete, then read: in a table with one profile per user and
    distinct keys, [delete_profile] removes the caller's row and no other,
    [get_profile] then answers 404, and a second [delete_profile] answers
    404 and changes nothing. *)
Theorem delete_profile_then_get (u : Z) (t : list ProfileRow) (p : ProfileRow) :
  profiles_ok t → profile_first u t = Some p →
  ∃ l1 l2,
    t = l1 ++ p :: l2 ∧
    delete_profile u t = (l1 ++ l2, (ProfileMessage "Profile deleted", 200)) ∧
    get_profile u (l1 ++ l2) = (l1 ++ l2, (ProfileMessage "Profile not found", 404)) ∧
    delete_profile u (l1 ++ l2)
    = (l1 ++ l2, (ProfileMessage "Profile not found", 404)).
Proof.
  intros Hok E.
  destruct (profile_first_split u t p Hok E) as (l1 & l2 & -> & Hp & Hall).
  exists l1, l2.
  assert (profile_first u (l1 ++ l2) = None) as E'.
  { unfold profile_first. rewrite filter_Forall_nil; [done|].
    eapply Forall_impl; [exact Hall|]. by intros r [Hr _]. }
  split_and!; [done | by apply delete_profile_split | |].
  - unfold get_profile. by rewrite E'.
  - unfold delete_profile. by rewrite E'.
Qed.

Lemma delete_profile_then_get_witness :
  ∃ l1 l2,
    sample_profiles = l1 ++ mkProfileRow 2 3 PNone (PStr "c.png") PNone :: l2 ∧
    delete_profile 3 sample_profiles
    = (l1 ++ l2, (ProfileMessage "Profile deleted", 200)).
Proof.
  assert (H : profiles_ok sample_profiles) by (split; by_evaluation).
  destruct (delete_profile_then_get 3 sample_profiles
              (mkProfileRow 2 3 PNone (PStr "c.png") PNone) H eq_refl)
    as (l1 & l2 & Ht & Hd & _).
  exists l1, l2. by split.
Defined.

(** ** Categories and subscriptions *)

Lemma add_category_keeps (data : gmap string pyval) (t : list Category) :
  NoDup (cat_name <$> t) → NoDup (cat_name <$> (add_category data t).1).
Proof.
  intros Hnd. unfold add_category.
  destruct (data !! "name") as [name|]; [|done].
  destruct (head (filter _ t)) eqn:E; [done|]. simpl.
  rewrite fmap_app. apply NoDup_app. split_and!; [done | | apply NoDup_singleton].
  intros n Hn Hn'. apply list_elem_of_singleton in Hn'. subst n.
  apply list_elem_of_fmap in Hn as (c & Hc & Hin).
  rewrite head_filter_None, Forall_forall in E. by apply (E c Hin).
Qed.

(** X19. Category names stay unique: over any sequence of [add_category]
    requests a table without a repeated name stays without one, and a
    request sent a second time is answered 400 and changes nothing. *)
Theorem category_names_unique (ds : list (gmap string pyval)) (t : list Category) :
  NoDup (cat_name <$> t) →
  NoDup (cat_name <$> category_run ds t) ∧
  ∀ d, ∃ b, add_category d (add_category d t).1 = ((add_category d t).1, (b, 400)).
Proof.
  intros Hnd. split.
  - revert t Hnd. induction ds as [|d ds IH]; intros t Hnd; [done|].
    simpl. by apply IH, add_category_keeps.
  - intros d. unfold add_category.
    destruct (d !! "name") as [name|] eqn:E; simpl; [|by eexists].
    destruct (head (filter (λ c, cat_name c = name) t)) eqn:E'; simpl.
    + rewrite E'. by eexists.
    + rewrite head_filter_app_None by done.
      rewrite filter_cons, decide_True by done. by eexists.
Qed.

Lemma category_names_unique_witness :
  NoDup (cat_name <$> category_run [ {[ "name" := PStr "art" ]}; ∅;
                                     {[ "name" := PStr "tech" ]};
                                     {[ "name" := PStr "art" ]} ]
                                   sample_categories).
Proof.
  refine (proj1 (category_names_unique _ sample_categories _)). by_evaluation.
Defined.

Lemma category_get_id (cid : Z) (cats : list Category) (c : Category) :
  category_get cid cats = Some c → cat_id c = cid.
Proof.
  intros E. apply head_Some_elem_of in E.
  by apply (list_elem_of_filter (λ c, cat_id c = cid)) in E as [E _].
Qed.

Lemma mapM_to_dict_Some (l : list (option Category)) :
  Forall is_Some l →
  ∃ cs, mapM category_to_dict l = Ret cs ∧ Some <$> cs = l.
Proof.
  induction 1 as [|o l [c ->] _ (cs & Hcs & Hl)].
  - by exists [].
  - exists (c :: cs). rewrite mapM_result_cons. simpl. rewrite Hcs. simpl.
    by rewrite <- Hl.
Qed.

Lemma mapM_to_dict_None (l : list (option Category)) :
  None ∈ l → mapM category_to_dict l = Raise (AttributeError "to_dict").
Proof.
  induction l as [|o l IH]; [by intros ?%elem_of_nil|].
  rewrite mapM_result_cons. destruct o as [c|]; simpl; [|done].
  intros [?|Hin]%elem_of_cons; [done|]. by rewrite IH.
Qed.

(** X20. [get_subscribed_categories] answers 200 with one category per
    subscription of the caller, in subscription order and with
    repetitions, when each of them names a stored category; as soon as one
    of them names a category that is not stored, it raises instead of
    answering.  [subscribe_category] stores any category id it is given,
    so it can put a user into that state. *)
Theorem subscribed_categories_listing (u : Z) (cats : list Category)
    (subs : list Subscription) :
  (Forall (λ s, sub_user_id s = u → is_Some (category_get (sub_category_id s) cats)) subs →
   ∃ cs, get_subscribed_categories u cats subs = Ret (cs, 200) ∧
         cat_id <$> cs = sub_category_id <$> filter (λ s, sub_user_id s = u) subs) ∧
  (∀ cid, category_get cid cats = None →
          (subscribe_category u cid subs).2.2 = 201 ∧
          get_subscribed_categories u cats (subscribe_category u cid subs).1
          = Raise (AttributeError "to_dict")).
Proof.
  split.
  - intros Hall. unfold get_subscribed_categories.
    destruct (mapM_to_dict_Some
                ((λ s, category_get (sub_category_id s) cats)
                   <$> filter (λ s, sub_user_id s = u) subs)) as (cs & Hcs & Hl).
    { apply Forall_fmap, Forall_forall. intros s Hs.
      apply (list_elem_of_filter (λ s, sub_user_id s = u)) in Hs as [Hu Hs].
      rewrite Forall_forall in Hall. by apply Hall. }
    exists cs. rewrite Hcs. split; [done|].
    apply (f_equal (fmap (fmap cat_id))) in Hl.
    rewrite <- !list_fmap_compose in Hl.
    apply (inj (fmap Some)).
    rewrite <- !list_fmap_compose. etrans; [exact Hl|].
    apply list_fmap_ext. intros i s Hs. simpl.
    apply list_elem_of_lookup_2, (list_elem_of_filter (λ s, sub_user_id s = u)) in Hs
      as [Hu Hs].
    rewrite Forall_forall in Hall. destruct (Hall s Hs Hu) as [c Hc].
    rewrite Hc. simpl. f_equal. by apply category_get_id in Hc.
  - intros cid Hc. split; [done|].
    unfold get_subscribed_categories, subscribe_category. simpl.
    rewrite mapM_to_dict_None; [done|].
    rewrite filter_app, fmap_app, filter_cons, decide_True by done.
    apply elem_of_app. right. simpl. rewrite Hc. by left.
Qed.

Lemma subscribed_categories_listing_witness :
  (∃ cs, get_subscribed_categories 7 sample_categories sample_subscriptions = Ret (cs, 200) ∧
         cat_id <$> cs = [2; 1; 2]) ∧
  get_subscribed_categories 7 sample_categories
    (subscribe_category 7 9 sample_subscriptions).1
  = Raise (AttributeError "to_dict").
Proof.
  pose proof (subscribed_categories_listing 7 sample_categories sample_subscriptions)
    as [H1 H2].
  split.
  - apply H1. repeat constructor; simpl; intros _; eexists; reflexivity.
  - apply (H2 9). reflexivity.
Defined.

(** ** Administration *)

Lemma account_get_split (uid : Z) (t : list Account) (a : Account) :
  NoDup (acc_id <$> t) → account_get uid t = Some a →
  ∃ l1 l2, t = l1 ++ a :: l2 ∧ acc_id a = uid ∧
           Forall (λ x, acc_id x ≠ uid) (l1 ++ l2).
Proof.
  intros Hi (l1 & l2 & -> & Hl1 & Ha)%head_filter_Some_split.
  exists l1, l2. split_and!; [done..|].
  rewrite fmap_app, fmap_cons in Hi.
  apply NoDup_app in Hi as (_ & Hi1 & [Hi2 _]%NoDup_cons).
  apply Forall_app. split; [done|].
  apply Forall_forall. intros x Hx Heq. apply Hi2.
  rewrite Ha, <- Heq. by apply list_elem_of_fmap_2.
Qed.

Lemma account_get_middle (uid : Z) (l1 l2 : list Account) (a : Account) :
  acc_id a = uid → Forall (λ x, acc_id x ≠ uid) (l1 ++ l2) →
  account_get uid (l1 ++ a :: l2) = Some a.
Proof.
  intros Ha [H1 H2]%Forall_app. unfold account_get.
  by rewrite filter_app, filter_Forall_nil, filter_cons, decide_True.
Qed.

Lemma account_get_other (uid : Z) (l1 l2 : list Account) (a a' : Account) :
  acc_id a = acc_id a' → acc_id a ≠ uid →
  account_get uid (l1 ++ a' :: l2) = account_get uid (l1 ++ a :: l2).
Proof.
  intros Heq Hne. unfold account_get.
  rewrite !filter_app, !filter_cons, !decide_False; [done | done | congruence].
Qed.

Lemma deactivate_user_split (cur uid : Z) (l1 l2 : list Account) (a : Account) :
  not_admin (account_get cur (l1 ++ a :: l2)) = false →
  acc_id a = uid → Forall (λ x, acc_id x ≠ uid) (l1 ++ l2) →
  deactivate_user cur uid (l1 ++ a :: l2)
  = (l1 ++ mkAccount (acc_id a) (acc_role a) false :: l2,
     (AdminMessage "User deactivated successfully", 200)).
Proof.
  intros Hadm Ha Hall. unfold deactivate_user.
  rewrite Hadm, (account_get_middle uid l1 l2 a) by done. f_equal.
  apply Forall_app in Hall as [H1 H2].
  rewrite fmap_app, fmap_cons, decide_True by done.
  assert (∀ l, Forall (λ x, acc_id x ≠ uid) l →
               (λ x, if decide (acc_id x = acc_id a)
                     then mkAccount (acc_id a) (acc_role a) false else x) <$> l = l)
    as Hid.
  { induction 1 as [|x l Hx _ IH]; [done|].
    rewrite fmap_cons, decide_False, IH; [done | congruence]. }
  by rewrite !Hid.
Qed.

(** X22. What a deactivation changes: in a table with distinct keys, when
    the caller is an admin and the target exists, [deactivate_user] answers
    200 and turns the target's active flag off, leaving its key and role,
    its place and every other row as they were; doing it again gives the
    same table. *)
Theorem deactivate_user_effect (cur uid : Z) (t : list Account) (a : Account) :
  NoDup (acc_id <$> t) →
  not_admin (account_get cur t) = false →
  account_get uid t = Some a →
  ∃ l1 l2,
    t = l1 ++ a :: l2 ∧
    deactivate_user cur uid t
    = (l1 ++ mkAccount (acc_id a) (acc_role a) false :: l2,
       (AdminMessage "User deactivated successfully", 200)) ∧
    deactivate_user cur uid (l1 ++ mkAccount (acc_id a) (acc_role a) false :: l2)
    = (l1 ++ mkAccount (acc_id a) (acc_role a) false :: l2,
       (AdminMessage "User deactivated successfully", 200)).
Proof.
  intros Hnd Hadm Ha.
  destruct (account_get_split uid t a Hnd Ha) as (l1 & l2 & -> & Hid & Hall).
  exists l1, l2. split_and!; [done | by apply deactivate_user_split |].
  apply (deactivate_user_split cur uid l1 l2 (mkAccount (acc_id a) (acc_role a) false));
    [|done..].
  destruct (decide (cur = uid)) as [->|Hne].
  - rewrite (account_get_middle uid l1 l2 a) in Hadm by done.
    by rewrite (account_get_middle uid l1 l2) by done.
  - rewrite (account_get_other cur l1 l2 a); [done | done | congruence].
Qed.

Lemma deactivate_user_effect_witness :
  ∃ l1 l2,
    sample_accounts = l1 ++ mkAccount 2 (PStr "user") true :: l2 ∧
    deactivate_user 1 2 sample_accounts
    = (l1 ++ mkAccount 2 (PStr "user") false :: l2,
       (AdminMessage "User deactivated successfully", 200)).
Proof.
  assert (H : NoDup (acc_id <$> sample_accounts)) by by_evaluation.
  destruct (deactivate_user_effect 1 2 sample_accounts (mkAccount 2 (PStr "user") true)
              H eq_refl eq_refl) as (l1 & l2 & Ht & Hd & _).
  exists l1, l2. by split.
Defined.

(** X23. The gate looks at the role only: in a table with distinct keys,
    an admin who has been deactivated, by themself or by another admin,
    still passes the gate of [get_all_users] and [deactivate_user]. *)
Theorem deactivated_admin_keeps_gate (cur by_whom : Z) (t : list Account) (a : Account) :
  NoDup (acc_id <$> t) →
  account_get cur t = Some a → acc_role a = PStr "admin" →
  not_admin (account_get by_whom t) = false →
  let t' := (deactivate_user by_whom cur t).1 in
  account_get cur t' = Some (mkAccount (acc_id a) (PStr "admin") false) ∧
  get_all_users cur t' = (t', (AdminUsers t', 200)) ∧
  ∀ uid, (deactivate_user cur uid t').2.2 ≠ 403.
Proof.
  intros Hnd Ha Hrole Hadm t'.
  destruct (deactivate_user_effect by_whom cur t a Hnd Hadm Ha)
    as (l1 & l2 & Ht & Hd & _).
  destruct (account_get_split cur t a Hnd Ha) as (k1 & k2 & Ht' & Hid & Hall).
  assert (account_get cur t' = Some (mkAccount (acc_id a) (PStr "admin") false)) as Hget.
  { subst t'. unfold deactivate_user. rewrite Hadm, Ha. simpl. rewrite Ht'.
    apply Forall_app in Hall as [H1 H2].
    rewrite fmap_app, fmap_cons, decide_True by done.
    unfold account_get. rewrite filter_app, filter_cons, decide_True by done.
    rewrite filter_Forall_nil; [by rewrite Hrole|].
    apply Forall_fmap. eapply Forall_impl; [exact H1|].
    intros x Hx. simpl. case_decide; simpl; congruence. }
  split_and!; [done | |].
  - unfold get_all_users. by rewrite Hget.
  - intros uid. unfold deactivate_user. rewrite Hget. simpl.
    by destruct (account_get uid t').
Qed.

Lemma deactivated_admin_keeps_gate_witness :
  get_all_users 1 (deactivate_user 1 1 sample_accounts).1
  = ((deactivate_user 1 1 sample_accounts).1,
     (AdminUsers (deactivate_user 1 1 sample_accounts).1, 200)).
Proof.
  assert (H : NoDup (acc_id <$> sample_accounts)) by by_evaluation.
  exact (proj1 (proj2 (deactivated_admin_keeps_gate 1 1 sample_accounts
                         (mkAccount 1 (PStr "admin") true) H eq_refl eq_refl eq_refl))).
Defined.

(** ** Revoked tokens *)

(** X24. Revocation is for good and by token id: after any sequence of
    logouts, [check_if_token_revoked] holds of a token exactly when it held
    before or the token has the ['jti'] of one of the tokens logged out;
    tokens without ['jti'] count as one token. *)
Theorem revoked_iff_logged_out (jwts : list (gmap string pyval))
    (header payload : gmap string pyval) (blocklist : gset pyval) :
  check_if_token_revoked header payload (logout_run jwts blocklist) = true ↔
  check_if_token_revoked header payload blocklist = true ∨
  ∃ jwt, jwt ∈ jwts ∧ dict_get jwt "jti" PNone = dict_get payload "jti" PNone.
Proof.
  unfold check_if_token_revoked. rewrite !bool_decide_eq_true.
  revert blocklist. induction jwts as [|jwt jwts IH]; intros blocklist; simpl.
  - split; [by left | intros [?|(? & ?%elem_of_nil & _)]; done].
  - rewrite IH. rewrite elem_of_union, elem_of_singleton. split.
    + intros [[Heq|Hin]|(j & Hj & Heq)].
      * right. exists jwt. split; [by left | done].
      * by left.
      * right. exists j. split; [by right | done].
    + intros [Hin|(j & [->|Hj]%elem_of_cons & Heq)].
      * left. by right.
      * left. by left.
      * right. by exists j.
Qed.

(** ** Runs of [post_comment] *)

Lemma post_comment_shape (u : Z) (data : gmap string pyval)
    (table : list App_20250427.Comment) :
  (App_20250427.post_comment u data table).1 = table ∨
  ∃ cid txt,
    data !! "content_id" = Some cid ∧ data !! "text" = Some txt ∧
    (App_20250427.post_comment u data table).1
    = table ++ [App_20250427.mkComment
                  (next_id (App_20250427.comment_id <$> table)) u cid txt None].
Proof.
  unfold App_20250427.post_comment, getitem.
  destruct (data !! "content_id") as [cid|]; [|by left].
  destruct (data !! "text") as [txt|]; [|by left].
  right. by exists cid, txt.
Qed.

(** X25. Over any sequence of [post_comment] requests, the comments
    already stored stay as they are at the head of the table, every new
    comment has a null parent, and keys that were distinct stay distinct;
    a request whose body lacks ['content_id'] or ['text'] raises and
    stores nothing. *)
Theorem post_comment_run_shape (rs : list (Z * gmap string pyval))
    (table : list App_20250427.Comment) :
  NoDup (App_20250427.comment_id <$> table) →
  (∃ new, post_comment_run rs table = table ++ new ∧
          Forall (λ c, App_20250427.parent_comment_id c = None) new) ∧
  NoDup (App_20250427.comment_id <$> post_comment_run rs table) ∧
  ∀ u data,
    data !! "content_id" = None ∨ data !! "text" = None →
    ∃ e, App_20250427.post_comment u data table = (table, Raise e).
Proof.
  intros Hnd. split_and!.
  - clear Hnd. revert table. induction rs as [|[u d] rs IH]; intros table.
    + exists []. by rewrite app_nil_r.
    + simpl. destruct (IH (App_20250427.post_comment u d table).1) as (new & -> & Hnew).
      destruct (post_comment_shape u d table) as [->|(cid & txt & _ & _ & ->)].
      * by exists new.
      * eexists. rewrite <- app_assoc. split; [done|]. by constructor.
  - revert table Hnd. induction rs as [|[u d] rs IH]; intros table Hnd; [done|].
    simpl. apply IH.
    destruct (post_comment_shape u d table) as [->|(cid & txt & _ & _ & ->)]; [done|].
    rewrite fmap_app. apply NoDup_app.
    split_and!; [done | | apply NoDup_singleton].
    intros i Hi Hi'. apply list_elem_of_singleton in Hi'. subst i.
    by apply next_id_fresh in Hi.
  - intros u data Hmiss. unfold App_20250427.post_comment, getitem.
    destruct (data !! "content_id") as [cid|]; [|by eexists].
    destruct Hmiss as [? | ->]; [done|]. by eexists.
Qed.

Lemma post_comment_run_shape_witness :
  NoDup (App_20250427.comment_id
           <$> post_comment_run [(3, cross_reply); (4, ∅); (3, cross_reply)]
                                sample_comments).
Proof.
  refine (proj1 (proj2 (post_comment_run_shape _ sample_comments _))). by_evaluation.
Defined.

Lemma admin_step_after (cur : Z) (target : option Z) (t : list Account) :
  NoDup (acc_id <$> t) →
  Forall2 account_after t
    (match target with
     | None => (get_all_users cur t).1
     | Some uid => (deactivate_user cur uid t).1
     end).
Proof.
  intros Hnd.
  assert (Forall2 account_after t t) as Hrefl.
  { apply Forall2_same_length_lookup. split; [done|].
    intros i a a' Ha Ha'. rewrite Ha in Ha'. injection Ha' as <-. by repeat split. }
  destruct target as [uid|].
  - unfold deactivate_user. destruct (not_admin _); [done|].
    destruct (account_get uid t) as [a|] eqn:Ha; [|done]. simpl.
    apply Forall2_fmap_r, Forall_Forall2_diag, Forall_forall.
    intros x Hx. simpl.
    destruct (decide (acc_id x = acc_id a)) as [Hid|Hid]; [|by repeat split].
    assert (x = a) as ->.
    { apply head_Some_elem_of in Ha.
      apply (list_elem_of_filter (λ a, acc_id a = uid)) in Ha as [_ Ha].
      apply list_elem_of_lookup in Hx as [i Hi], Ha as [j Hj].
      assert (i = j) as ->; [|congruence].
      eapply NoDup_lookup; [exact Hnd | |].
      - rewrite list_lookup_fmap, Hi. reflexivity.
      - rewrite list_lookup_fmap, Hj. simpl. by rewrite Hid. }
    by repeat split.
  - unfold get_all_users. by destruct (not_admin _).
Qed.

Lemma account_after_trans (a b c : Account) :
  account_after a b → account_after b c → account_after a c.
Proof.
  intros (H1 & H2 & H3) (K1 & K2 & K3). repeat split; [congruence..|auto].
Qed.

(** X21. Admin requests only ever switch users off: over any sequence of
    [get_all_users] and [deactivate_user] requests on a table with distinct
    keys, every row keeps its place, its key and its role and is never
    made active again; and a request whose caller has no user row or a role
    other than 'admin' is answered 403 and changes nothing. *)
Theorem admin_requests_only_deactivate (rs : list (Z * option Z)) (t : list Account) :
  NoDup (acc_id <$> t) →
  Forall2 account_after t (admin_run rs t) ∧
  ∀ cur uid,
    not_admin (account_get cur t) = true →
    get_all_users cur t = (t, (AdminError "Unauthorized access", 403)) ∧
    deactivate_user cur uid t = (t, (AdminError "Unauthorized access", 403)).
Proof.
  intros Hnd. split.
  - revert t Hnd. induction rs as [|[cur target] rs IH]; intros t Hnd.
    + apply Forall2_same_length_lookup. split; [done|].
      intros i a a' Ha Ha'. simpl in Ha'. rewrite Ha in Ha'.
      injection Ha' as <-. by repeat split.
    + simpl. pose proof (admin_step_after cur target t Hnd) as Hstep.
      set (t1 := match target with
                 | None => (get_all_users cur t).1
                 | Some uid => (deactivate_user cur uid t).1
                 end) in *.
      assert (NoDup (acc_id <$> t1)) as Hnd1.
      { replace (acc_id <$> t1) with (acc_id <$> t); [done|].
        apply list_eq_Forall2, Forall2_fmap.
        eapply Forall2_impl; [exact Hstep|]. by intros a a' (-> & _). }
      specialize (IH t1 Hnd1).
      eapply Forall2_trans; [|exact Hstep|exact IH].
      apply account_after_trans.
  - intros cur uid H. unfold get_all_users, deactivate_user. by rewrite H.
Qed.

Lemma admin_requests_only_deactivate_witness :
  Forall2 account_after sample_accounts
          (admin_run [(1, Some 2); (2, Some 1); (3, None); (1, Some 1); (1, Some 3)]
                     sample_accounts).
Proof.
  refine (proj1 (admin_requests_only_deactivate _ sample_accounts _)). by_evaluation.
Defined.

(** ** Registration and login *)

Lemma register_shape (is_json : bool) (data : gmap string pyval)
    (hashed : result pyval) (role : pyval) (t : list Credential) :
  (∃ b, register is_json data hashed role t = (t, (b, 400))) ∨
  (∃ h, is_json = true ∧
        absent_or_empty data "username" = false ∧
        absent_or_empty data "email" = false ∧
        absent_or_empty data "password" = false ∧
        credential_first (dict_get data "email" PNone) t = None ∧
        hashed = Ret h ∧
        register is_json data hashed role t
        = (t ++ [mkCredential (next_id (cred_id <$> t))
                              (dict_get data "username" PNone)
                              (dict_get data "email" PNone) h role],
           (AuthUser (mkCredential (next_id (cred_id <$> t))
                                   (dict_get data "username" PNone)
                                   (dict_get data "email" PNone) h role), 201))).
Proof.
  unfold register.
  destruct is_json; simpl; [|left; by eexists].
  destruct (absent_or_empty data "username"); [left; by eexists|].
  destruct (absent_or_empty data "email"); [left; by eexists|].
  destruct (absent_or_empty data "password"); [left; by eexists|].
  destruct (credential_first _ t); [left; by eexists|].
  destruct hashed as [h|e]; [|left; by eexists].
  right. by exists h.
Qed.



(** X27. Emails stay unique: over any sequence of [register] requests a
    table in which no two users share an email, and keys are distinct,
    stays so. *)
Theorem register_emails_unique (rs : list registration) (t : list Credential) :
  NoDup (cred_email <$> t) → NoDup (cred_id <$> t) →
  NoDup (cred_email <$> register_run rs t) ∧ NoDup (cred_id <$> register_run rs t).
Proof.
  revert t. induction rs as [|r rs IH]; intros t He Hi; [done|].
  simpl. destruct (register_shape (reg_is_json r) (reg_data r) (reg_hashed r)
                     (reg_role r) t)
    as [[b ->]|(h & _ & _ & _ & _ & E & _ & ->)]; simpl; [by apply IH|].
  apply IH; rewrite fmap_app; apply NoDup_app;
    (split_and!; [done | | apply NoDup_singleton]);
    intros x Hx Hx'; apply list_elem_of_singleton in Hx'; subst x.
  - apply list_elem_of_fmap in Hx as (u & Hu & Hin).
    unfold credential_first in E. rewrite head_filter_None, Forall_forall in E.
    by apply (E u Hin).
  - by apply next_id_fresh in Hx.
Qed.

Lemma register_emails_unique_witness :
  NoDup (cred_email
           <$> register_run [ mkRegistration true bob_form (Ret (PStr "h2")) (PStr "user");
                              mkRegistration true bob_form (Ret (PStr "h3")) (PStr "user");
                              mkRegistration false bob_form (Ret (PStr "h4")) PNone ]
                            sample_credentials).
Proof.
  refine (proj1 (register_emails_unique _ sample_credentials _ _)); by_evaluation.
Defined.

(** X28. Register, then log in: after a registration answered 201, a JSON
    login with the same email gets 200 and a token for the new user's key
    and role when the password check passes, 401 when it fails, and raises
    when the check raises. *)
Theorem register_then_login (data data' : gmap string pyval)
    (hashed : result pyval) (role : pyval) (t : list Credential)
    (password_ok : result bool) :
  (register true data hashed role t).2.2 = 201 →
  dict_get data' "email" PNone = dict_get data "email" PNone →
  login true data' password_ok (register true data hashed role t).1
  = match password_ok with
    | Ret true => Ret (AuthToken (next_id (cred_id <$> t)) role, 200)
    | Ret false => Ret (AuthError "Invalid credentials", 401)
    | Raise e => Raise e
    end.
Proof.
  intros H201 Hemail.
  destruct (register_shape true data hashed role t)
    as [[b Hb]|(h & _ & _ & _ & _ & E & _ & Hr)].
  { rewrite Hb in H201. simpl in H201. lia. }
  rewrite Hr. simpl. unfold login. simpl. rewrite Hemail.
  unfold credential_first in *. rewrite head_filter_app_None by done.
  rewrite filter_cons, decide_True by done. simpl.
  by destruct password_ok as [[|]|].
Qed.

Lemma register_then_login_witness :
  login true {[ "email" := PStr "bob@example.org" ]} (Ret true)
        (register true bob_form (Ret (PStr "h2")) (PStr "user") sample_credentials).1
  = Ret (AuthToken 2 (PStr "user"), 200).
Proof.
  apply (register_then_login bob_form {[ "email" := PStr "bob@example.org" ]}
           (Ret (PStr "h2")) (PStr "user") sample_credentials (Ret true));
    vm_compute; reflexivity.
Defined.
